(** * The sidecar process supervisor of yt-helper

    A shallow embedding of [src/main/python-bridge.ts] (class
    [PythonBridge], the version that reconciles jobs by polling, with the
    push handler of the WebSocket version beside it) and the properties of
    its restart policy, request client, job tracker and shutdown sequence.

    The class is an event emitter with mutable fields. Its methods and the
    callbacks it registers are written in a small monad that threads the
    object's state, collects the effects on the outside world in order
    (events emitted to the host, HTTP requests, timers, signals) and
    carries JavaScript exceptions. Whatever a method awaits from the
    outside (an HTTP answer, the events of the child process during a
    wait) is an argument of the embedded method. A method or callback
    runs without interruption, except [start], which lets the listeners
    of the child process run during the waits of its readiness loop, and
    [stop], which is suspended at each of its cancel requests and goes
    on with an input of its own, so that anything can come in between.
    The host is taken to listen on the four channels [status],
    [progress], [complete] and [error], as the main process does. Numbers
    are integers: the class computes with small whole numbers only. Calls
    to the logger are left out: they change no state and reach neither
    host nor worker. *)

From Stdlib Require Import ZArith String List Bool Lia.
From stdpp Require Import base list strings pretty.
Import ListNotations.

#[local] Open Scope string_scope.
#[local] Open Scope list_scope.
#[local] Open Scope Z_scope.

(** ** Constants *)

Definition MIN_EXE_SIZE : Z := 10 * 1024 * 1024.
Definition POLL_INTERVAL : Z := 500.

(** ** shared/types *)

Inductive Status :=
  pending | downloading | processing | complete | error | cancelled.

#[global] Instance Status_eq_dec : EqDecision Status.
Proof. solve_decision. Defined.

(** [progress] is a JavaScript number that the supervisor only carries. *)
Record DownloadProgress := {
  downloadId : string;
  status : Status;
  progress : Z;
  speed : option string;
  eta : option string;
  filename : option string;
  errorText : option string
}.

Inductive Mode := video | audio.

Record DownloadOptions := {
  url : string;
  outputDir : string;
  mode : Mode;
  videoFormat : option string;
  audioFormat : option string;
  quality : option string;
  startTime : option string;
  endTime : option string
}.

Record VideoInfo := {
  id : string;
  title : string;
  description : string;
  thumbnail : string;
  duration : Z;
  channel : string;
  uploadDate : string;
  viewCount : Z;
  availableQualities : list string;
  availableVideoFormats : list string;
  availableAudioFormats : list string
}.

Record StartedDownload := { started_downloadId : string }.
Record CancelReply := { reply_status : string }.

(** ** JavaScript values the class relies on *)

(** [new Error(message)]. *)
Record JsError := MkError { message : string }.

(** [a || b] on an optional string: [undefined] and the empty string are
    falsy. *)
Definition or_else (a : option string) (b : string) : string :=
  match a with
  | Some s => if bool_decide (s = "") then b else s
  | None => b
  end.

(** [Set<string>]: membership without duplicates, iterated in insertion
    order. *)
Module JsSet.
Abbreviation t := (list string).
Definition empty : t := [].
Definition has (x : string) (s : t) : bool := bool_decide (x ∈ s).
Definition add (x : string) (s : t) : t := if has x s then s else s ++ [x].
Definition delete (x : string) (s : t) : t := filter (λ y, y ≠ x) s.
Definition size (s : t) : Z := Z.of_nat (length s).
Definition clear (s : t) : t := [].
End JsSet.

(** ** The object and the runtime around it *)

(** A [ChildProcess] of Node: [killed] is set by a [kill] that delivered
    its signal, [exitCode] and [signalCode] when the process has ended;
    [exitOnce] holds the promises whose [once('exit')] listener is
    registered on it. *)
Record ChildProcess := {
  killed : bool;
  exitCode : option Z;
  signalCode : option string;
  exitOnce : list nat
}.

(** The fields of [PythonBridge]. [process] refers to a child process in
    the runtime's store, [pollInterval] holds the interval timer. *)
Record PythonBridge := {
  process : option nat;
  port : Z;
  ready : bool;
  starting : bool;
  shouldRestart : bool;
  retryCount : Z;
  maxRetries : Z;
  lastError : string;
  outputBuffer : list string;
  pollInterval : option unit;
  activeDownloads : JsSet.t
}.

(** [new PythonBridge()]. *)
Definition initial : PythonBridge := {|
  process := None; port := 0; ready := false; starting := false;
  shouldRestart := true; retryCount := 0; maxRetries := 3; lastError := "";
  outputBuffer := []; pollInterval := None; activeDownloads := JsSet.empty
|}.

Definition set_process v b := {|
  process := v; port := port b; ready := ready b; starting := starting b;
  shouldRestart := shouldRestart b; retryCount := retryCount b;
  maxRetries := maxRetries b; lastError := lastError b;
  outputBuffer := outputBuffer b; pollInterval := pollInterval b;
  activeDownloads := activeDownloads b |}.
Definition set_port v b := {|
  process := process b; port := v; ready := ready b; starting := starting b;
  shouldRestart := shouldRestart b; retryCount := retryCount b;
  maxRetries := maxRetries b; lastError := lastError b;
  outputBuffer := outputBuffer b; pollInterval := pollInterval b;
  activeDownloads := activeDownloads b |}.
Definition set_ready v b := {|
  process := process b; port := port b; ready := v; starting := starting b;
  shouldRestart := shouldRestart b; retryCount := retryCount b;
  maxRetries := maxRetries b; lastError := lastError b;
  outputBuffer := outputBuffer b; pollInterval := pollInterval b;
  activeDownloads := activeDownloads b |}.
Definition set_starting v b := {|
  process := process b; port := port b; ready := ready b; starting := v;
  shouldRestart := shouldRestart b; retryCount := retryCount b;
  maxRetries := maxRetries b; lastError := lastError b;
  outputBuffer := outputBuffer b; pollInterval := pollInterval b;
  activeDownloads := activeDownloads b |}.
Definition set_shouldRestart v b := {|
  process := process b; port := port b; ready := ready b;
  starting := starting b; shouldRestart := v; retryCount := retryCount b;
  maxRetries := maxRetries b; lastError := lastError b;
  outputBuffer := outputBuffer b; pollInterval := pollInterval b;
  activeDownloads := activeDownloads b |}.
Definition set_retryCount v b := {|
  process := process b; port := port b; ready := ready b;
  starting := starting b; shouldRestart := shouldRestart b; retryCount := v;
  maxRetries := maxRetries b; lastError := lastError b;
  outputBuffer := outputBuffer b; pollInterval := pollInterval b;
  activeDownloads := activeDownloads b |}.
Definition set_lastError v b := {|
  process := process b; port := port b; ready := ready b;
  starting := starting b; shouldRestart := shouldRestart b;
  retryCount := retryCount b; maxRetries := maxRetries b; lastError := v;
  outputBuffer := outputBuffer b; pollInterval := pollInterval b;
  activeDownloads := activeDownloads b |}.
Definition set_outputBuffer v b := {|
  process := process b; port := port b; ready := ready b;
  starting := starting b; shouldRestart := shouldRestart b;
  retryCount := retryCount b; maxRetries := maxRetries b;
  lastError := lastError b; outputBuffer := v;
  pollInterval := pollInterval b; activeDownloads := activeDownloads b |}.
Definition set_pollInterval v b := {|
  process := process b; port := port b; ready := ready b;
  starting := starting b; shouldRestart := shouldRestart b;
  retryCount := retryCount b; maxRetries := maxRetries b;
  lastError := lastError b; outputBuffer := outputBuffer b;
  pollInterval := v; activeDownloads := activeDownloads b |}.
Definition set_activeDownloads v b := {|
  process := process b; port := port b; ready := ready b;
  starting := starting b; shouldRestart := shouldRestart b;
  retryCount := retryCount b; maxRetries := maxRetries b;
  lastError := lastError b; outputBuffer := outputBuffer b;
  pollInterval := pollInterval b; activeDownloads := v |}.

(** The runtime: the bridge object, the store of child process objects
    (closures keep referring to a child after [this.process] has moved
    on), and the number of promises [stop] has handed out. *)
Record Runtime := {
  this : PythonBridge;
  children : list ChildProcess;
  promises : nat
}.

Definition fresh : Runtime :=
  {| this := initial; children := []; promises := 0 |}.

(** ** Effects on the outside world *)

Record BackendStatus := { status_ready : bool; status_error : option string }.

(** [this.emit(name, payload)]. *)
Inductive HostEvent :=
| Emit_status (s : BackendStatus)
| Emit_progress (p : DownloadProgress)
| Emit_complete (p : DownloadProgress)
| Emit_error (p : DownloadProgress).

Inductive Method := GET | POST | DELETE.

Inductive Body :=
| Body_url (u : string)
| Body_options (o : DownloadOptions)
| Body_downloadId (d : string).

Record RequestInit := {
  init_method : option Method;
  init_headers : list (string * string);
  init_body : option Body
}.

(** One call of [fetch]. [req_abortable] says an abort signal was passed. *)
Record Request := {
  req_url : string;
  req_method : Method;
  req_headers : list (string * string);
  req_body : option Body;
  req_abortable : bool
}.

Inductive Signal := SIGTERM | SIGKILL.

(** The callbacks handed to [setTimeout]. *)
Inductive Callback :=
| Cb_start
| Cb_forceKill (proc : nat)
| Cb_shutdownTimeout (promise : nat).

Inductive Effect :=
| Emit (e : HostEvent)
| Fetch (r : Request)
| SetTimeout (cb : Callback) (delay : Z)
| SetInterval (delay : Z)
| ClearInterval
| Spawn (pythonPath : string) (args : list string) (env : list (string * string))
| Kill (proc : nat) (sig : Signal)
| Resolve (promise : nat).

(** ** The monad of methods and callbacks *)

Inductive Completion (A : Type) :=
| Normal (a : A)
| Throw (e : JsError).
Arguments Normal {A} a.
Arguments Throw {A} e.

Definition M (A : Type) : Type :=
  Runtime → Completion A * Runtime * list Effect.

#[global] Instance M_ret : MRet M := λ A a r, (Normal a, r, []).

#[global] Instance M_bind : MBind M := λ A B k m r,
  match m r with
  | (Normal a, r1, e1) =>
      match k a r1 with
      | (c, r2, e2) => (c, r2, e1 ++ e2)
      end
  | (Throw e, r1, e1) => (Throw e, r1, e1)
  end.

Definition ret {A} (a : A) : M A := mret a.

Definition throw {A} (e : JsError) : M A := λ r, (Throw e, r, []).

(** [try { body } catch (e) { handler e }]: what the body did before it
    threw stays done. *)
Definition try_catch {A} (body : M A) (handler : JsError → M A) : M A := λ r,
  match body r with
  | (Normal a, r1, e1) => (Normal a, r1, e1)
  | (Throw e, r1, e1) =>
      match handler e r1 with
      | (c, r2, e2) => (c, r2, e1 ++ e2)
      end
  end.

Definition get_this : M PythonBridge := λ r, (Normal (this r), r, []).
Definition get_runtime : M Runtime := λ r, (Normal r, r, []).

Definition update (f : PythonBridge → PythonBridge) : M unit := λ r,
  (Normal tt,
   {| this := f (this r); children := children r; promises := promises r |},
   []).

Definition update_children (f : list ChildProcess → list ChildProcess)
  : M unit := λ r,
  (Normal tt,
   {| this := this r; children := f (children r); promises := promises r |},
   []).

Definition new_promise : M nat := λ r,
  (Normal (promises r),
   {| this := this r; children := children r; promises := S (promises r) |},
   []).

Definition perform (e : Effect) : M unit := λ r, (Normal tt, r, [e]).

Definition emit (e : HostEvent) : M unit := perform (Emit e).

Fixpoint for_each {A} (l : list A) (f : A → M unit) : M unit :=
  match l with
  | [] => ret tt
  | x :: l' => f x ;; for_each l' f
  end.

Definition state_of {A} (x : Completion A * Runtime * list Effect) : Runtime :=
  snd (fst x).
Definition bridge_of {A} (x : Completion A * Runtime * list Effect)
  : PythonBridge := this (state_of x).
Definition effects_of {A} (x : Completion A * Runtime * list Effect)
  : list Effect := snd x.
Definition completion_of {A} (x : Completion A * Runtime * list Effect)
  : Completion A := fst (fst x).

(** ** Request client *)

Definition base_url (b : PythonBridge) : string :=
  "http://127.0.0.1:" +:+ pretty (port b).

(** What one awaited HTTP exchange of [request] comes to: [fetch] rejects,
    [response.json()] rejects, the status is not a success (with the
    [error] and [message] fields of the body), or success with the body. *)
Inductive FetchAnswer (T : Type) :=
| Rejected (e : JsError)
| InvalidJson (e : JsError)
| NotOk (http_status : Z) (data_error data_message : option string)
| Ok (data : T).
Arguments Rejected {T} e.
Arguments InvalidJson {T} e.
Arguments NotOk {T} http_status data_error data_message.
Arguments Ok {T} data.

Definition json_header : list (string * string) :=
  [("Content-Type", "application/json")].

Definition request {T} (endpoint : string) (options : option RequestInit)
    (answer : FetchAnswer T) : M T :=
  b ← get_this;
  if negb (ready b) then throw (MkError "Python server is not ready")
  else
    perform (Fetch {|
      req_url := base_url b +:+ endpoint;
      req_method := default GET (options ≫= init_method);
      req_headers := json_header ++ from_option init_headers [] options;
      req_body := options ≫= init_body;
      req_abortable := false |});;
    match answer with
    | Rejected e => throw e
    | InvalidJson e => throw e
    | NotOk st data_error data_message =>
        throw (MkError (or_else data_error (or_else data_message
                 ("Request failed with status " +:+ pretty st))))
    | Ok data => ret data
    end.

Definition post (b : Body) : option RequestInit :=
  Some {| init_method := Some POST; init_headers := []; init_body := Some b |}.

Definition getVideoInfo (u : string) (answer : FetchAnswer VideoInfo)
  : M VideoInfo :=
  request "/api/video/info" (post (Body_url u)) answer.

(** ** Job tracker (pull model) *)

Definition stopPolling : M unit :=
  b ← get_this;
  match pollInterval b with
  | Some _ => perform ClearInterval ;; update (set_pollInterval None)
  | None => ret tt
  end.

(** [startPolling] registers the interval callback, which is [pollTick]
    below. *)
Definition startPolling : M unit :=
  b ← get_this;
  match pollInterval b with
  | Some _ => ret tt
  | None =>
      perform (SetInterval POLL_INTERVAL);;
      update (set_pollInterval (Some tt))
  end.

(** The answer to a plain [fetch]: it rejects, or a response arrives. *)
Inductive PlainAnswer :=
| Plain_rejected (e : JsError)
| Plain_response (ok : bool).

Definition clearDownload (d : string) (answer : PlainAnswer) : M unit :=
  b ← get_this;
  try_catch
    (perform (Fetch {|
       req_url := base_url b +:+ "/api/download/clear/" +:+ d;
       req_method := DELETE; req_headers := []; req_body := None;
       req_abortable := false |});;
     match answer with
     | Plain_rejected e => throw e
     | Plain_response _ => ret tt
     end)
    (λ _, ret tt).

Definition delete_active (d : string) : M unit :=
  update (λ b, set_activeDownloads (JsSet.delete d (activeDownloads b)) b).

(** The body of the [for] loop of the interval callback. *)
Definition handle_progress (cleared : string → PlainAnswer)
    (p : DownloadProgress) : M unit :=
  match status p with
  | complete =>
      emit (Emit_complete p);;
      delete_active (downloadId p);;
      clearDownload (downloadId p) (cleared (downloadId p))
  | error =>
      emit (Emit_error p);;
      delete_active (downloadId p);;
      clearDownload (downloadId p) (cleared (downloadId p))
  | cancelled =>
      delete_active (downloadId p);;
      clearDownload (downloadId p) (cleared (downloadId p))
  | _ => emit (Emit_progress p)
  end.

(** The answer to the request for the progress listing: [fetch] rejects,
    the response is not a success, [response.json()] rejects, or the
    listing arrives. *)
Inductive PollAnswer :=
| Poll_rejected (e : JsError)
| Poll_not_ok
| Poll_invalid_json (e : JsError)
| Poll_listing (progressList : list DownloadProgress).

(** The interval callback of [startPolling]. *)
Definition pollTick (answer : PollAnswer) (cleared : string → PlainAnswer)
  : M unit :=
  b ← get_this;
  if negb (ready b) || bool_decide (JsSet.size (activeDownloads b) = 0)
  then ret tt
  else
    try_catch
      (perform (Fetch {|
         req_url := base_url b +:+ "/api/download/progress";
         req_method := GET; req_headers := []; req_body := None;
         req_abortable := false |});;
       match answer with
       | Poll_rejected e => throw e
       | Poll_not_ok => ret tt
       | Poll_invalid_json e => throw e
       | Poll_listing progressList =>
           for_each progressList (handle_progress cleared)
       end)
      (λ _, ret tt).

Definition startDownload (options : DownloadOptions)
    (answer : FetchAnswer StartedDownload) : M StartedDownload :=
  result ← request "/api/download/start" (post (Body_options options)) answer;
  update (λ b, set_activeDownloads
                 (JsSet.add (started_downloadId result) (activeDownloads b)) b);;
  startPolling;;
  ret result.

Definition cancelDownload (d : string) (answer : FetchAnswer CancelReply)
  : M unit :=
  _ ← request "/api/download/cancel" (post (Body_downloadId d)) answer;
  delete_active d.

(** ** Job tracker (push model) *)

(** [ws.onmessage] of the WebSocket version of the class. [None] is a
    message that [JSON.parse] rejects. *)
Definition onmessage (data : option DownloadProgress) : M unit :=
  match data with
  | None => ret tt
  | Some p =>
      match status p with
      | complete => emit (Emit_complete p)
      | error => emit (Emit_error p)
      | _ => emit (Emit_progress p)
      end
  end.

(** ** Process launcher *)

(** What the child process does, as the listeners registered in [start]
    see it: a chunk on stdout or stderr (already [toString().trim()]), an
    ['error'] event with its message, the ['exit'] event. The ['error']
    event leaves the fields of the child as they are (Node fills in
    [exitCode] as well when the event reports a failed spawn). *)
Inductive ProcEvent :=
| Stdout (output : string)
| Stderr (output : string)
| ProcError (msg : string)
| Exit (code : option Z) (signal : option string).

(** [this.outputBuffer.push(line)] and the trimming to 100 lines. *)
Definition push_output (line : string) : M unit :=
  update (λ b,
    let buffer := outputBuffer b ++ [line] in
    set_outputBuffer
      (if bool_decide (100 < Z.of_nat (length buffer)) then tail buffer
       else buffer) b).

Definition onStdout (output : string) : M unit := push_output output.

Definition onStderr (output : string) : M unit :=
  update (set_lastError output);;
  push_output ("[ERROR] " +:+ output).

Definition onError (msg : string) : M unit :=
  update (set_lastError msg);;
  update (set_ready false);;
  update (set_starting false);;
  emit (Emit_status {|
    status_ready := false;
    status_error := Some ("Failed to start backend: " +:+ msg) |}).

(** [code !== 0 && code !== null]. *)
Definition crashed (code : option Z) : bool :=
  match code with
  | Some c => negb (bool_decide (c = 0))
  | None => false
  end.

(** [Math.min(2000 * Math.pow(2, n - 1), 16000)]; [n] is at least 1
    wherever the class evaluates it, so the power is an integer. *)
Definition backoff (n : Z) : Z := Z.min (2000 * 2 ^ (n - 1)) 16000.

Definition retrying (b : PythonBridge) : BackendStatus := {|
  status_ready := false;
  status_error := Some ("Backend crashed. Retrying (" +:+ pretty (retryCount b)
    +:+ "/" +:+ pretty (maxRetries b) +:+ ")...") |}.

Definition gave_up (b : PythonBridge) : BackendStatus := {|
  status_ready := false;
  status_error := Some ("Backend failed to start after "
    +:+ pretty (maxRetries b) +:+ " attempts. Last error: "
    +:+ or_else (Some (lastError b)) "Unknown error") |}.

(** The ['exit'] listener registered in [start]. *)
Definition onExit (code : option Z) (signal : option string) : M unit :=
  update (set_ready false);;
  update (set_starting false);;
  stopPolling;;
  b ← get_this;
  if shouldRestart b && crashed code then
    update (λ b, set_retryCount (retryCount b + 1) b);;
    b ← get_this;
    if bool_decide (retryCount b ≤ maxRetries b) then
      emit (Emit_status (retrying b));;
      perform (SetTimeout Cb_start (backoff (retryCount b)))
    else
      emit (Emit_status (gave_up b))
  else ret tt.

(** The [once('exit')] listener registered in [stop]. *)
Definition onExit_stop (promise : nat) : M unit :=
  update (set_process None);;
  perform (Resolve promise).

Definition exited (code : option Z) (signal : option string)
    (c : ChildProcess) : ChildProcess :=
  {| killed := killed c; exitCode := code; signalCode := signal;
     exitOnce := [] |}.

(** Node delivers an event of child [proc] to the listeners in the order
    they were registered; at exit it has filled in [exitCode] and
    [signalCode] before the listeners run. *)
Definition onProcessEvent (proc : nat) (ev : ProcEvent) : M unit :=
  match ev with
  | Stdout output => onStdout output
  | Stderr output => onStderr output
  | ProcError msg => onError msg
  | Exit code signal =>
      r ← get_runtime;
      let waiting := from_option exitOnce [] (children r !! proc) in
      update_children (alter (exited code signal) proc);;
      onExit code signal;;
      for_each waiting onExit_stop
  end.

Definition alive (c : ChildProcess) : bool :=
  match exitCode c, signalCode c with
  | None, None => true
  | _, _ => false
  end.

(** [proc.kill(sig)] of Node: the signal is sent, and [killed] set, only
    while the process has not ended. *)
Definition kill (proc : nat) (sig : Signal) : M unit :=
  r ← get_runtime;
  match children r !! proc with
  | Some c =>
      if alive c then
        perform (Kill proc sig);;
        update_children (alter (λ c, {|
          killed := true; exitCode := exitCode c;
          signalCode := signalCode c; exitOnce := exitOnce c |}) proc)
      else ret tt
  | None => ret tt
  end.

(** One round of the readiness probe as the outside world plays it: the
    events of the child while the health request is awaited, the answer
    to the request (an abort after 1000 ms is a rejection), the events of
    the child during the pause that follows. *)
Record ProbeStep := {
  during_fetch : list ProcEvent;
  health : PlainAnswer;
  during_sleep : list ProcEvent
}.

(** What one call of [start] finds outside the object. *)
Record StartEnv := {
  is_dev : bool;
  win32 : bool;
  appPath : string;
  resourcesPath : string;
  env_PATH : option string;
  process_env : list (string * string);
  existsSync : string → bool;
  statSync_size : string → Z;
  availablePort : Z + JsError;
  probes : nat → ProbeStep
}.

(** [path.join] on segments that need no normalising. *)
Definition join (e : StartEnv) (segments : list string) : string :=
  String.concat (if win32 e then "\" else "/") segments.

Record PythonCommand := {
  pythonPath : string;
  args : list string;
  env : list (string * string)
}.

(** The command that [getPythonCommand] builds when [this.port] is [p]. *)
Definition pythonCommand (e : StartEnv) (p : Z) : PythonCommand :=
  if is_dev e then
    let venvPython :=
      if win32 e
      then join e [appPath e; "python"; "venv"; "Scripts"; "python.exe"]
      else join e [appPath e; "python"; "venv"; "bin"; "python"] in
    let serverScript := join e [appPath e; "python"; "server.py"] in
    if existsSync e venvPython then
      {| pythonPath := venvPython;
         args := [serverScript; "--port"; pretty p]; env := [] |}
    else
      {| pythonPath := if win32 e then "python" else "python3";
         args := [serverScript; "--port"; pretty p]; env := [] |}
  else
    let exeName :=
      if win32 e then "yt-helper-backend.exe" else "yt-helper-backend" in
    let ffmpegDir := join e [resourcesPath e; "ffmpeg"] in
    {| pythonPath := join e [resourcesPath e; "python"; exeName];
       args := ["--port"; pretty p];
       env := if existsSync e ffmpegDir
              then [("PATH", ffmpegDir +:+ (if win32 e then ";" else ":")
                              +:+ or_else (env_PATH e) "")]
              else [] |}.

Definition getPythonCommand (e : StartEnv) : M PythonCommand :=
  b ← get_this;
  ret (pythonCommand e (port b)).

Definition findAvailablePort (e : StartEnv) : M Z :=
  match availablePort e with
  | inl p => ret p
  | inr err => throw err
  end.

(** [spawn(...)]: a new child process object, stored in [this.process]. *)
Definition spawn (e : StartEnv) (cmd : PythonCommand) : M unit :=
  r ← get_runtime;
  perform (Spawn (pythonPath cmd) (args cmd)
             (process_env e ++ env cmd ++ [("PYTHONUNBUFFERED", "1")]));;
  update_children (λ cs, cs ++ [{|
    killed := false; exitCode := None; signalCode := None; exitOnce := [] |}]);;
  update (set_process (Some (length (children r)))).

(** ** Readiness prober *)

(** The events of the child that [this.process] refers to, delivered
    while a method is suspended. *)
Definition deliver (evs : list ProcEvent) : M unit :=
  for_each evs (λ ev,
    b ← get_this;
    match process b with
    | Some proc => onProcessEvent proc ev
    | None => ret tt
    end).

(** [this.process?.killed || this.process?.exitCode !== null], and the
    text of [this.process?.exitCode]. *)
Definition process_state : M (bool * string) :=
  r ← get_runtime;
  match process (this r) ≫= (children r !!.) with
  | Some c =>
      ret (killed c || bool_decide (exitCode c ≠ None),
           match exitCode c with Some n => pretty n | None => "null" end)
  | None => ret (true, "undefined")
  end.

(** The [try] block of the loop of [waitForServer]: one health request;
    whatever it throws is swallowed. *)
Definition probe (e : StartEnv) (i : nat) : M bool :=
  b ← get_this;
  try_catch
    (perform (Fetch {|
       req_url := base_url b +:+ "/api/health"; req_method := GET;
       req_headers := []; req_body := None; req_abortable := true |});;
     deliver (during_fetch (probes e i));;
     match health (probes e i) with
     | Plain_rejected err => throw err
     | Plain_response ok => ret ok
     end)
    (λ _, ret false).

Definition terminated_message (exitCodeText : string) (b : PythonBridge)
  : string :=
  "Python process terminated unexpectedly (exit code: " +:+ exitCodeText
  +:+ "). " +:+ "Last error: "
  +:+ or_else (Some (lastError b)) "Check logs for details".

Definition timeout_message (maxAttempts : nat) (intervalMs : Z) : string :=
  "Python server failed to start after "
  +:+ pretty (Z.of_nat maxAttempts * intervalMs) +:+ "ms".

Fixpoint waitForServer_from (e : StartEnv) (maxAttempts : nat)
    (intervalMs : Z) (remaining i : nat) : M unit :=
  match remaining with
  | O => throw (MkError (timeout_message maxAttempts intervalMs))
  | S remaining' =>
      '(gone, exitCodeText) ← process_state;
      b ← get_this;
      if gone : bool then throw (MkError (terminated_message exitCodeText b))
      else
        ok ← probe e i;
        if ok : bool then ret tt
        else
          deliver (during_sleep (probes e i));;
          waitForServer_from e maxAttempts intervalMs remaining' (S i)
  end.

Definition waitForServer (e : StartEnv) (maxAttempts : nat) (intervalMs : Z)
  : M unit :=
  waitForServer_from e maxAttempts intervalMs maxAttempts 0.

Definition corrupt_message (size : Z) : string :=
  "Python executable appears corrupt (size: " +:+ pretty size
  +:+ " bytes, expected > " +:+ pretty MIN_EXE_SIZE +:+ ")".

Definition start (e : StartEnv) : M unit :=
  b ← get_this;
  if starting b || ready b then ret tt
  else
    update (set_starting true);;
    update (set_shouldRestart true);;
    update (set_outputBuffer []);;
    try_catch
      (p ← findAvailablePort e;
       update (set_port p);;
       cmd ← getPythonCommand e;
       (if negb (existsSync e (pythonPath cmd)) then
          throw (MkError ("Python executable not found at: "
                          +:+ pythonPath cmd))
        else ret tt);;
       (if negb (is_dev e) then
          let size := statSync_size e (pythonPath cmd) in
          if bool_decide (size < MIN_EXE_SIZE)
          then throw (MkError (corrupt_message size))
          else ret tt
        else ret tt);;
       spawn e cmd;;
       waitForServer e 60 500;;
       update (set_ready true);;
       update (set_starting false);;
       update (set_retryCount 0);;
       emit (Emit_status {| status_ready := true; status_error := None |}))
      (λ err,
       update (set_starting false);;
       update (set_ready false);;
       update (set_lastError (message err));;
       emit (Emit_status {|
         status_ready := false; status_error := Some (message err) |});;
       throw err).

(** ** Shutdown coordinator *)

(** [stop] is an async method: it runs up to the [await] of a cancel
    request, is suspended there, and goes on when that request has
    settled; whatever else is due runs in between. The JavaScript
    runtime keeps a suspended call; in the embedding the call returns
    it and the input that resumes it carries it: the promise the call
    has returned, the job whose cancel request is awaited, and how far
    the [for...of] loop has come in the set of tracked jobs. *)
Record StopCall := {
  stop_promise : nat;
  stop_job : string;
  stop_position : nat
}.

(** The rest of [stop] after its loop, from
    [this.activeDownloads.clear()] on. The effect [Resolve] marks each
    call of [resolve], and the return without a process. *)
Definition stop_finish (promise : nat) : M unit :=
  update (λ b, set_activeDownloads (JsSet.clear (activeDownloads b)) b);;
  b ← get_this;
  match process b with
  | None => perform (Resolve promise)
  | Some proc =>
      update_children (alter (λ c, {|
        killed := killed c; exitCode := exitCode c;
        signalCode := signalCode c;
        exitOnce := exitOnce c ++ [promise] |}) proc);;
      kill proc SIGTERM;;
      perform (SetTimeout (Cb_forceKill proc) 3000);;
      perform (SetTimeout (Cb_shutdownTimeout promise) 5000)
  end.

(** [stop] at the head of its loop over [this.activeDownloads], a live
    set: the iterator goes on from its position in the set as it is
    now. Until [start] is called, the set is at most cleared while a
    call is suspended (see [set_kept_or_cleared]), so that the position
    is that of the next entry; what the iterator does after entries
    have been added or removed one by one, which takes a [start] in
    between, is not followed. With an entry, the cancel request is sent
    and the call is suspended; without one, the method goes on to its
    end. *)
Definition stop_loop (promise position : nat) : M (option StopCall) :=
  b ← get_this;
  match activeDownloads b !! position with
  | Some d =>
      perform (Fetch {|
        req_url := base_url b +:+ "/api/download/cancel";
        req_method := POST; req_headers := json_header;
        req_body := Some (Body_downloadId d); req_abortable := false |});;
      ret (Some {| stop_promise := promise; stop_job := d;
                   stop_position := S position |})
  | None => stop_finish promise;; ret None
  end.

(** A call of [stop], up to its first [await] or, when no job is
    tracked, to its end. It returns a promise; the embedding returns the
    number of the promise and the call as it is suspended, if it is. *)
Definition stop : M (nat * option StopCall) :=
  promise ← new_promise;
  update (set_shouldRestart false);;
  update (set_ready false);;
  update (set_retryCount 0);;
  stopPolling;;
  suspended ← stop_loop promise 0;
  ret (promise, suspended).

(** The cancel request that [call] awaits has settled: a rejection is
    caught and ignored, and the loop goes on. *)
Definition stop_resumed (call : StopCall) (answer : PlainAnswer)
  : M (option StopCall) :=
  try_catch
    (match answer with
     | Plain_rejected err => throw err
     | Plain_response _ => ret tt
     end)
    (λ _, ret tt);;
  stop_loop (stop_promise call) (stop_position call).

(** The two timer callbacks of [stop]. *)
Definition forceKill (proc : nat) : M unit :=
  r ← get_runtime;
  match children r !! proc with
  | Some c => if negb (killed c) then kill proc SIGKILL else ret tt
  | None => ret tt
  end.

Definition shutdownTimeout (promise : nat) : M unit :=
  update (set_process None);;
  perform (Resolve promise).

(** ** The supervisor as a reactive system *)

(** Everything that can happen to the object: a call of the host (a
    [start] is also what the restart timer runs), an event of a child
    process, a timer that fires, a cancel request of a suspended [stop]
    that settles. Nothing ties a timer that fires or a request that
    settles to the call that set or sent it, so the runs of the
    embedding include those of the class. *)
Inductive Input :=
| Call_start (e : StartEnv)
| Call_stop
| Call_getVideoInfo (u : string) (answer : FetchAnswer VideoInfo)
| Call_startDownload (o : DownloadOptions) (answer : FetchAnswer StartedDownload)
| Call_cancelDownload (d : string) (answer : FetchAnswer CancelReply)
| Process_event (proc : nat) (ev : ProcEvent)
| Interval_tick (answer : PollAnswer) (cleared : string → PlainAnswer)
| Timer_forceKill (proc : nat)
| Timer_shutdownTimeout (promise : nat)
| Cancel_settled (call : StopCall) (answer : PlainAnswer).

(** An exception of a call stays with its caller. *)
Definition settle {A} (m : M A) : M unit :=
  try_catch (m;; ret tt) (λ _, ret tt).

Definition step (i : Input) : M unit :=
  match i with
  | Call_start e => settle (start e)
  | Call_stop => settle stop
  | Call_getVideoInfo u answer => settle (getVideoInfo u answer)
  | Call_startDownload o answer => settle (startDownload o answer)
  | Call_cancelDownload d answer => settle (cancelDownload d answer)
  | Process_event proc ev => onProcessEvent proc ev
  | Interval_tick answer cleared => pollTick answer cleared
  | Timer_forceKill proc => forceKill proc
  | Timer_shutdownTimeout promise => shutdownTimeout promise
  | Cancel_settled call answer => settle (stop_resumed call answer)
  end.

Definition run (inputs : list Input) : M unit := for_each inputs step.

(** * Vocabulary of the properties

    Observations of a trace of effects, the states and inputs used as
    examples, and the predicates the theorems are stated with. *)

(** ** Observing a trace of effects *)

(** The events emitted to the host, the status events among them, the
    HTTP requests sent, the paths spawned. *)
Definition emitted (es : list Effect) : list HostEvent :=
  omap (λ e, match e with Emit ev => Some ev | _ => None end) es.

Definition statuses (es : list Effect) : list BackendStatus :=
  omap (λ e, match e with Emit (Emit_status s) => Some s | _ => None end) es.

Definition fetches (es : list Effect) : list Request :=
  omap (λ e, match e with Fetch q => Some q | _ => None end) es.

(** The delays of the restart attempts scheduled in a trace. *)
Definition restarts (es : list Effect) : list Z :=
  omap (λ e, match e with SetTimeout Cb_start d => Some d | _ => None end) es.

Definition spawns (es : list Effect) : list string :=
  omap (λ e, match e with Spawn path _ _ => Some path | _ => None end) es.

(** Whether a host event is a terminal event of job [d], and the
    terminal events of job [d] in a trace. *)
Definition terminal_event_of (d : string) (ev : HostEvent) : bool :=
  match ev with
  | Emit_complete p | Emit_error p => bool_decide (downloadId p = d)
  | _ => false
  end.

Definition terminal_events (d : string) (es : list Effect) : list HostEvent :=
  filter (λ ev, terminal_event_of d ev = true) (emitted es).

(** ** Requests, states and environments used in the statements *)

Definition NotReadyError : JsError := MkError "Python server is not ready".

(** The request that [request] sends for a POST with body [body]. *)
Definition post_request (b : PythonBridge) (endpoint : string) (body : Body)
  : Request := {|
  req_url := base_url b +:+ endpoint; req_method := POST;
  req_headers := json_header; req_body := Some body;
  req_abortable := false |}.

(** Some download options. *)
Definition some_options : DownloadOptions := {|
  url := "https://youtu.be/x"; outputDir := "/tmp"; mode := video;
  videoFormat := None; audioFormat := None; quality := None;
  startTime := None; endTime := None |}.

(** A ready supervisor that tracks the jobs [ids] and has no process. *)
Definition tracking (ids : list string) : Runtime := {|
  this := set_activeDownloads ids (set_ready true initial);
  children := []; promises := 0 |}.

(** [preserves I E m]: from a state in [I], the method [m] ends in a
    state in [I], whether it returns or throws, and all its effects are
    in [E]. *)
Definition preserves (I : Runtime → Prop) (E : Effect → Prop) {A}
    (m : M A) : Prop :=
  ∀ r, I r → I (state_of (m r)) ∧ Forall E (effects_of (m r)).

(** The retry cap is [k] and auto-restart is on. *)
Definition policy_kept (k : Z) (r : Runtime) : Prop :=
  maxRetries (this r) = k ∧ shouldRestart (this r) = true.

(** No constraint on effects, none on states. *)
Definition any_effect (e : Effect) : Prop := True.

Definition any_state (r : Runtime) : Prop := True.

(** The bridge after the ['exit'] listener has counted a crash. *)
Definition after_crash (b : PythonBridge) : PythonBridge := {|
  process := process b; port := port b; ready := false; starting := false;
  shouldRestart := shouldRestart b; retryCount := retryCount b + 1;
  maxRetries := maxRetries b; lastError := lastError b;
  outputBuffer := outputBuffer b; pollInterval := None;
  activeDownloads := activeDownloads b |}.

(** What [stopPolling] does to the outside. *)
Definition interval_cleared (b : PythonBridge) : list Effect :=
  match pollInterval b with
  | Some _ => [ClearInterval]
  | None => []
  end.

(** The status event that ends the retries, for the last error [err]. *)
Definition terminal_failure (err : string) : BackendStatus := {|
  status_ready := false;
  status_error := Some ("Backend failed to start after " +:+ pretty 3
    +:+ " attempts. Last error: " +:+ or_else (Some err) "Unknown error") |}.

(** The interim status event of attempt [n] out of 3. *)
Definition retry_notice (n : Z) : BackendStatus := {|
  status_ready := false;
  status_error := Some ("Backend crashed. Retrying (" +:+ pretty n
    +:+ "/" +:+ pretty 3 +:+ ")...") |}.

(** A packaged installation: the executable exists with [size] bytes, a
    port is free, and the child behaves as [script] says. *)
Definition packaged (size : Z) (script : nat → ProbeStep) : StartEnv := {|
  is_dev := false; win32 := false; appPath := "/opt/yt-helper/app";
  resourcesPath := "/opt/yt-helper/resources"; env_PATH := Some "/usr/bin";
  process_env := [("PATH", "/usr/bin")];
  existsSync := λ _, true; statSync_size := λ _, size;
  availablePort := inl 51000; probes := script |}.

(** The worker answers the health request at once. *)
Definition healthy : ProbeStep := {|
  during_fetch := []; health := Plain_response true; during_sleep := [] |}.

(** The worker runs but its health endpoint never answers with success. *)
Definition unresponsive : ProbeStep := {|
  during_fetch := []; health := Plain_rejected (MkError "fetch failed");
  during_sleep := [] |}.

(** The child only writes to its output streams: it neither exits nor
    fails. *)
Definition is_output (ev : ProcEvent) : Prop :=
  match ev with
  | Stdout _ | Stderr _ => True
  | _ => False
  end.

(** Through all the probes of a start attempt the child keeps running,
    and its health endpoint never answers with success. *)
Definition still_running (e : StartEnv) : Prop :=
  ∀ i, Forall is_output (during_fetch (probes e i)) ∧
       Forall is_output (during_sleep (probes e i)).

Definition never_healthy (e : StartEnv) : Prop :=
  ∀ i, health (probes e i) ≠ Plain_response true.

(** Only the diagnostics of the bridge differ between [r] and [r']. *)
Definition diagnostics_only (r r' : Runtime) : Prop :=
  children r' = children r ∧ promises r' = promises r ∧
  this r' = set_outputBuffer (outputBuffer (this r'))
              (set_lastError (lastError (this r')) (this r)).

(** [this.process] refers to a child that has neither ended nor been
    signalled. *)
Definition probing (r : Runtime) : Prop :=
  ∃ proc c, process (this r) = Some proc ∧ children r !! proc = Some c ∧
            killed c = false ∧ exitCode c = None.

Definition is_fetch (e : Effect) : Prop := ∃ q, e = Fetch q.

(** The requests of the poll loop. *)
Definition clear_request (b : PythonBridge) (d : string) : Request := {|
  req_url := base_url b +:+ "/api/download/clear/" +:+ d;
  req_method := DELETE; req_headers := []; req_body := None;
  req_abortable := false |}.

Definition progress_request (b : PythonBridge) : Request := {|
  req_url := base_url b +:+ "/api/download/progress";
  req_method := GET; req_headers := []; req_body := None;
  req_abortable := false |}.

(** The runtime with job [d] removed from the tracked set. *)
Definition untrack (d : string) (r : Runtime) : Runtime := {|
  this := set_activeDownloads (JsSet.delete d (activeDownloads (this r))) (this r);
  children := children r; promises := promises r |}.

(** A record of job [d] with status [s]. *)
Definition record (d : string) (s : Status) : DownloadProgress := {|
  downloadId := d; status := s; progress := 100; speed := None; eta := None;
  filename := None; errorText := None |}.

(** The terminal statuses. *)
Definition is_terminal (s : Status) : bool :=
  match s with
  | complete | error | cancelled => true
  | _ => false
  end.

(** The terminal event the loop emits for a record. *)
Definition terminal_notice (p : DownloadProgress) : option HostEvent :=
  match status p with
  | complete => Some (Emit_complete p)
  | error => Some (Emit_error p)
  | _ => None
  end.

(** The terminal events for job [d] that a listing gives rise to. *)
Definition listed_terminal (d : string) (l : list DownloadProgress)
  : list HostEvent :=
  omap (λ p, if bool_decide (downloadId p = d) then terminal_notice p
             else None) l.

(** The records that a tick receives. *)
Definition listing (i : Input) : list DownloadProgress :=
  match i with
  | Interval_tick (Poll_listing l) _ => l
  | _ => []
  end.

(** Two polls in a row list job "a" as complete, the clear call between
    them having failed, while job "b" keeps the poll loop going. *)
Definition replayed_listing : list Input :=
  let records := [record "a" complete; record "b" downloading] in
  [ Interval_tick (Poll_listing records)
      (λ _, Plain_rejected (MkError "fetch failed"));
    Interval_tick (Poll_listing records)
      (λ _, Plain_rejected (MkError "fetch failed")) ].

(** An effect other than a job's terminal event. *)
Definition no_job_event (e : Effect) : Prop :=
  match e with
  | Emit (Emit_complete _) | Emit (Emit_error _) => False
  | _ => True
  end.

(** Promise [p] of a call of [stop] waits for the exit of child [proc]. *)
Definition registered (proc p : nat) (r : Runtime) : Prop :=
  ∃ c, children r !! proc = Some c ∧ p ∈ exitOnce c.

(** An effect other than the resolution of a promise. *)
Definition not_resolve (e : Effect) : Prop :=
  match e with
  | Resolve _ => False
  | _ => True
  end.

(** What may happen while a call of [stop] waits for the exit of the
    child, other than an exit, a deadline, a further [start] or [stop],
    or the settling of a cancel request: the children write output or
    report errors, the force-kill timer fires, the poll timer ticks, the
    host makes calls. *)
Definition shutdown_noise (i : Input) : Prop :=
  match i with
  | Process_event _ (Exit _ _) => False
  | Process_event _ _ => True
  | Timer_forceKill _ => True
  | Interval_tick _ _ => True
  | Call_getVideoInfo _ _ => True
  | Call_startDownload _ _ => True
  | Call_cancelDownload _ _ => True
  | _ => False
  end.

(** [this.process], when set, refers to a child process of the store. *)
Definition handle_valid (r : Runtime) : Prop :=
  ∀ proc, process (this r) = Some proc → is_Some (children r !! proc).

(** A suspended call of [stop] carried to its end with nothing in
    between: each cancel request settles at once, the one for job [d]
    with [answers d]. The loop is given [fuel] turns. *)
Fixpoint settle_all (answers : string → PlainAnswer) (fuel : nat)
    (suspended : option StopCall) : M unit :=
  match suspended, fuel with
  | Some call, S fuel' =>
      next ← stop_resumed call (answers (stop_job call));
      settle_all answers fuel' next
  | _, _ => ret tt
  end.

(** A call of [stop] with nothing else running while its requests are
    awaited, and every request settling. *)
Definition stop_alone (answers : string → PlainAnswer) : M nat :=
  b ← get_this;
  '(promise, suspended) ← stop;
  settle_all answers (length (activeDownloads b)) suspended;;
  ret promise.

(** The runtime when a call of [stop] has come to its loop. *)
Definition stop_entered (r : Runtime) : Runtime := {|
  this := set_pollInterval None (set_retryCount 0 (set_ready false
            (set_shouldRestart false (this r))));
  children := children r;
  promises := S (promises r) |}.

(** The cancel request of [stop] for job [d]. *)
Definition cancel_request (b : PythonBridge) (d : string) : Request :=
  post_request b "/api/download/cancel" (Body_downloadId d).

(** A supervisor whose worker is up and works on job "a": it is ready
    and polls. *)
Definition busy : Runtime :=
  state_of (run [ Call_start (packaged 20000000 (λ _, healthy));
                  Call_startDownload some_options
                    (Ok {| started_downloadId := "a" |}) ] fresh).

(** The call of [stop] in [busy] as it is suspended: at the
    cancel request for job "a". *)
Definition awaiting_a : StopCall :=
  {| stop_promise := 0; stop_job := "a"; stop_position := 1 |}.

(** What may happen while a call of [stop] is suspended, other than the
    settling of a cancel request, a further call of [stop], or a
    deadline timer (none is set before the loop has ended). *)
Definition while_suspended (i : Input) : Prop :=
  match i with
  | Call_stop | Cancel_settled _ _ | Timer_shutdownTimeout _ => False
  | _ => True
  end.

(** No call of [stop] waits for the exit of a child. *)
Definition nobody_waits (r : Runtime) : Prop :=
  Forall (λ c, exitOnce c = []) (children r).

(** A supervisor that has counted one failure. *)
Definition failed_once : Runtime :=
  {| this := set_retryCount 1 initial; children := []; promises := 0 |}.

(** The worker writes "boom" to stderr and exits with [code] while the
    first health request is awaited. *)
Definition crashing (code : Z) : ProbeStep := {|
  during_fetch := [Stderr "boom"; Exit (Some code) None];
  health := Plain_rejected (MkError "fetch failed"); during_sleep := [] |}.

(** The first start and the three restarts of a worker that always
    crashes. *)
Definition crash_loop : list Input :=
  replicate 4 (Call_start (packaged 20000000 (λ _, crashing 1))).

(** The failure status of a start attempt whose worker has died. *)
Definition start_failed : BackendStatus := {|
  status_ready := false;
  status_error := Some
    "Python process terminated unexpectedly (exit code: 1). Last error: boom" |}.

(** A supervisor whose worker is up. *)
Definition running : Runtime :=
  state_of (run [Call_start (packaged 20000000 (λ _, healthy))] fresh).

(** ** The main process (index.ts): the IPC handlers in front of the bridge

    The handlers as they run once [startPythonBackend] has created the
    bridge. *)

Definition isReady : M bool :=
  b ← get_this;
  ret (ready b).

Definition handle_GET_VIDEO_INFO (u : string) (answer : FetchAnswer VideoInfo)
  : M VideoInfo :=
  isready ← isReady;
  if negb isready
  then throw (MkError "Backend is starting up. Please wait...")
  else getVideoInfo u answer.

Definition handle_START_DOWNLOAD (options : DownloadOptions)
    (answer : FetchAnswer StartedDownload) : M StartedDownload :=
  isready ← isReady;
  if negb isready
  then throw (MkError "Backend is starting up. Please wait...")
  else startDownload options answer.

Definition handle_CANCEL_DOWNLOAD (d : string)
    (answer : FetchAnswer CancelReply) : M unit :=
  isready ← isReady;
  if negb isready
  then throw (MkError "Backend is not available")
  else cancelDownload d answer.

(** * Vocabulary of the further properties *)

(** The bridge after the ['exit'] listener has run without counting a
    crash. *)
Definition after_exit (b : PythonBridge) : PythonBridge := {|
  process := process b; port := port b; ready := false; starting := false;
  shouldRestart := shouldRestart b; retryCount := retryCount b;
  maxRetries := maxRetries b; lastError := lastError b;
  outputBuffer := outputBuffer b; pollInterval := None;
  activeDownloads := activeDownloads b |}.

(** The failure status that the [catch] block of [start] emits. *)
Definition failure_status (err : JsError) : BackendStatus :=
  {| status_ready := false; status_error := Some (message err) |}.

Definition ready_status : BackendStatus :=
  {| status_ready := true; status_error := None |}.

(** The interpreter of the virtual environment that [getPythonCommand]
    looks for in development mode, and the bare name it falls back to. *)
Definition venvPython (e : StartEnv) : string :=
  if win32 e
  then join e [appPath e; "python"; "venv"; "Scripts"; "python.exe"]
  else join e [appPath e; "python"; "venv"; "bin"; "python"].

Definition systemPython (e : StartEnv) : string :=
  if win32 e then "python" else "python3".

(** Child [proc] has been signalled, or has ended. *)
Definition signalled (proc : nat) (r : Runtime) : Prop :=
  ∃ c, children r !! proc = Some c ∧ (killed c = true ∨ alive c = false).

(** The health request of the readiness probe. *)
Definition health_request (b : PythonBridge) : Request := {|
  req_url := base_url b +:+ "/api/health"; req_method := GET;
  req_headers := []; req_body := None; req_abortable := true |}.

(** The child process object that [spawn] returns. *)
Definition new_child : ChildProcess :=
  {| killed := false; exitCode := None; signalCode := None; exitOnce := [] |}.

(** The runtime when [start] has spawned the worker on port [p] and is
    about to wait for it. *)
Definition launched (p : Z) (r : Runtime) : Runtime := {|
  this := set_process (Some (length (children r)))
            (set_port p (set_outputBuffer [] (set_shouldRestart true
              (set_starting true (this r)))));
  children := children r ++ [new_child];
  promises := promises r |}.

(** The spawn of the worker for the command [cmd]. *)
Definition spawned (e : StartEnv) (cmd : PythonCommand) : Effect :=
  Spawn (pythonPath cmd) (args cmd)
    (process_env e ++ env cmd ++ [("PYTHONUNBUFFERED", "1")]).

(** How [start] ends once [waitForServer] has ended in state [r]: with
    the ready status, or with the failure status for [err]. *)
Definition made_ready (r : Runtime) : Runtime := {|
  this := set_retryCount 0 (set_starting false (set_ready true (this r)));
  children := children r; promises := promises r |}.

Definition made_failed (err : JsError) (r : Runtime) : Runtime := {|
  this := set_lastError (message err)
            (set_ready false (set_starting false (this r)));
  children := children r; promises := promises r |}.

(** A round of the readiness probe in which the worker only writes
    output and its health endpoint does not answer with success. *)
Definition quiet_round (s : ProbeStep) : Prop :=
  Forall is_output (during_fetch s) ∧ Forall is_output (during_sleep s) ∧
  health s ≠ Plain_response true.

(** Whether the answer to a request is a response with a success
    status. *)
Definition succeeded (a : PlainAnswer) : bool :=
  match a with
  | Plain_response ok => ok
  | Plain_rejected _ => false
  end.

(** The runtime when child [proc] has ended with [code] and [signal],
    before its listeners run. *)
Definition ended (code : option Z) (signal : option string) (proc : nat)
    (r : Runtime) : Runtime := {|
  this := this r;
  children := alter (exited code signal) proc (children r);
  promises := promises r |}.

(** The error of [waitForServer] for a worker that ended with exit code
    [code], the last error on record being [last]. *)
Definition terminated_with (code : Z) (last : string) : JsError :=
  MkError ("Python process terminated unexpectedly (exit code: "
           +:+ pretty code +:+ "). " +:+ "Last error: " +:+ last).

(** The worker is ended by the signal [sig] while the health request is
    awaited. *)
Definition signal_death (sig : string) : ProbeStep := {|
  during_fetch := [Exit None (Some sig)];
  health := Plain_rejected (MkError "fetch failed"); during_sleep := [] |}.

(** A worker that is ended by SIGKILL during the first probe. *)
Definition oom_killed : StartEnv :=
  packaged 20000000
    (λ i, if bool_decide (i = 0%nat) then signal_death "SIGKILL"
          else unresponsive).

(** An effect other than setting the restart timer; an effect that is
    neither that nor the spawn of a worker. *)
Definition not_restart (e : Effect) : Prop :=
  match e with
  | SetTimeout Cb_start _ => False
  | _ => True
  end.


Definition not_spawn (e : Effect) : Prop :=
  match e with
  | Spawn _ _ _ => False
  | _ => True
  end.

(** An event of the child other than an exit with a nonzero exit code. *)
Definition no_crash (ev : ProcEvent) : Prop :=
  match ev with
  | Exit (Some c) _ => c = 0
  | _ => True
  end.

(** Whatever the worker does during the probes of a start attempt, it
    does not exit with a nonzero exit code. *)
Definition calm (e : StartEnv) : Prop :=
  ∀ i, Forall no_crash (during_fetch (probes e i)) ∧
       Forall no_crash (during_sleep (probes e i)).


(** The supervisor is not ready and tracks the jobs [ids], or none. *)
Definition down_with (ids : JsSet.t) (r : Runtime) : Prop :=
  ready (this r) = false ∧
  (activeDownloads (this r) = ids ∨ activeDownloads (this r) = []).

(** The supervisor is down: auto-restart is off, it is not ready and no
    start attempt is under way. *)
Definition halted (r : Runtime) : Prop :=
  shouldRestart (this r) = false ∧ ready (this r) = false ∧
  starting (this r) = false.

(** An input other than a call of [start]. *)
Definition no_start (i : Input) : Prop :=
  match i with
  | Call_start _ => False
  | _ => True
  end.

(** The diagnostic buffer holds at most 100 lines. *)
Definition buffer_bounded (r : Runtime) : Prop :=
  (length (outputBuffer (this r)) ≤ 100)%nat.

(** ** The poll timer, as the trace shows it

    Whether an interval is live after an effect, starting from [on];
    [None] when the effect sets a second interval beside a live one or
    clears one that is not there. *)
Definition timer_step (on : bool) (e : Effect) : option bool :=
  match e with
  | SetInterval _ => if on then None else Some true
  | ClearInterval => if on then Some false else None
  | _ => Some on
  end.

Fixpoint timer_run (on : bool) (es : list Effect) : option bool :=
  match es with
  | [] => Some on
  | e :: es' => timer_step on e ≫= λ on', timer_run on' es'
  end.

(** Whether the supervisor holds the handle of an interval. *)
Definition has_timer (r : Runtime) : bool :=
  match pollInterval (this r) with
  | Some _ => true
  | None => false
  end.

(** [m] sets and clears intervals in turn, and [this.pollInterval] tells
    at its end whether one is live. *)
Definition timer_tracked {A} (m : M A) : Prop :=
  ∀ r, timer_run (has_timer r) (effects_of (m r))
       = Some (has_timer (state_of (m r))).

(** An effect other than setting or clearing an interval. *)
Definition no_interval (e : Effect) : Prop :=
  match e with
  | SetInterval _ | ClearInterval => False
  | _ => True
  end.

(** The supervisor tracks the jobs [ids] and has no poll timer. *)
Definition unpolled (ids : JsSet.t) (r : Runtime) : Prop :=
  activeDownloads (this r) = ids ∧ pollInterval (this r) = None.

(** Since [r0] only jobs have been untracked: everything but the set of
    tracked jobs is as in [r0], and that set has lost members at most. *)
Definition only_untracked (r0 r : Runtime) : Prop :=
  children r = children r0 ∧ promises r = promises r0 ∧
  this r = set_activeDownloads (activeDownloads (this r)) (this r0) ∧
  activeDownloads (this r) ⊆ activeDownloads (this r0).

(** * Properties *)

(** ** Running the monad *)

Lemma bind_unfold {A B} (m : M A) (k : A → M B) r :
  (m ≫= k) r =
  match m r with
  | (Normal a, r1, e1) =>
      (completion_of (k a r1), state_of (k a r1), e1 ++ effects_of (k a r1))
  | (Throw e, r1, e1) => (Throw e, r1, e1)
  end.
Proof.
  unfold mbind, M_bind, completion_of, state_of, effects_of.
  destruct (m r) as [[[a|e] r1] e1]; [|reflexivity].
  destruct (k a r1) as [[c r2] e2]; reflexivity.
Qed.

(** Unfolds the monad's operations where they are applied. *)
Ltac run_M :=
  repeat (progress (
    cbv beta iota zeta delta
      [mbind M_bind mret M_ret ret throw try_catch get_this get_runtime
       update update_children new_promise perform emit
       completion_of state_of effects_of bridge_of];
    cbn [fst snd this children promises app])).

Lemma request_not_ready {T} endpoint options (answer : FetchAnswer T) r :
  ready (this r) = false →
  request endpoint options answer r =
    (Throw (MkError "Python server is not ready"), r, []).
Proof.
  intros Hr. unfold request, mbind, M_bind, get_this. simpl.
  rewrite Hr. simpl. destruct r; reflexivity.
Qed.

(** ** The tracked set *)

Lemma elem_of_add x y (s : list string) :
  x ∈ JsSet.add y s ↔ x = y ∨ x ∈ s.
Proof.
  unfold JsSet.add, JsSet.has. case_bool_decide as Hy.
  - split; [auto|]. intros [->|]; auto.
  - rewrite elem_of_app, list_elem_of_singleton. tauto.
Qed.

Lemma elem_of_delete x y (s : list string) :
  x ∈ JsSet.delete y s ↔ x ≠ y ∧ x ∈ s.
Proof. unfold JsSet.delete. by rewrite list_elem_of_filter. Qed.

Lemma not_elem_of_delete x (s : list string) : x ∉ JsSet.delete x s.
Proof. rewrite elem_of_delete. tauto. Qed.

Lemma NoDup_add y (s : list string) : NoDup s → NoDup (JsSet.add y s).
Proof.
  intros Hs. unfold JsSet.add, JsSet.has. case_bool_decide as Hy; [done|].
  apply NoDup_app. split_and!; [done| |apply NoDup_singleton].
  intros x Hx ->%list_elem_of_singleton. done.
Qed.

Lemma NoDup_delete y (s : list string) : NoDup s → NoDup (JsSet.delete y s).
Proof. apply NoDup_filter. Qed.

(** ** Request client *)

Lemma request_post {T} endpoint body (answer : FetchAnswer T) r :
  ready (this r) = true →
  request endpoint (post body) answer r =
    (match answer with
     | Rejected e | InvalidJson e => Throw e
     | NotOk st data_error data_message =>
         Throw (MkError (or_else data_error (or_else data_message
                  ("Request failed with status " +:+ pretty st))))
     | Ok data => Normal data
     end, r, [Fetch (post_request (this r) endpoint body)]).
Proof.
  intros Hr. unfold request, mbind, M_bind, get_this. simpl.
  rewrite Hr. simpl. destruct answer; simpl; destruct r; reflexivity.
Qed.

Lemma startDownload_not_ready o answer r :
  ready (this r) = false →
  startDownload o answer r = (Throw NotReadyError, r, []).
Proof.
  intros Hr. unfold startDownload.
  rewrite bind_unfold, request_not_ready by done. reflexivity.
Qed.

Lemma cancelDownload_not_ready d answer r :
  ready (this r) = false →
  cancelDownload d answer r = (Throw NotReadyError, r, []).
Proof.
  intros Hr. unfold cancelDownload.
  rewrite bind_unfold, request_not_ready by done. reflexivity.
Qed.

(** C5. A [request] made while the supervisor is not ready throws the
    not-ready error, leaves the state as it is and has no effect on the
    outside world: in particular no HTTP request is sent. The same holds
    for [getVideoInfo], [startDownload] and [cancelDownload], whatever the
    endpoint, the payload and the answer the worker would have given. *)
Theorem not_ready_no_network r :
  ready (this r) = false →
  (∀ T endpoint options (answer : FetchAnswer T),
     request endpoint options answer r = (Throw NotReadyError, r, [])) ∧
  (∀ u answer, getVideoInfo u answer r = (Throw NotReadyError, r, [])) ∧
  (∀ o answer, startDownload o answer r = (Throw NotReadyError, r, [])) ∧
  (∀ d answer, cancelDownload d answer r = (Throw NotReadyError, r, [])).
Proof.
  intros Hr. split_and!; intros.
  - by apply request_not_ready.
  - unfold getVideoInfo. by apply request_not_ready.
  - by apply startDownload_not_ready.
  - by apply cancelDownload_not_ready.
Qed.

Lemma not_ready_no_network_witness :
  ready (this fresh) = false ∧
  startDownload some_options (Ok {| started_downloadId := "a" |}) fresh
    = (Throw NotReadyError, fresh, []).
Proof.
  split; [reflexivity|].
  exact (proj1 (proj2 (proj2 (not_ready_no_network fresh eq_refl))) _ _).
Defined.

(** ** Starting and cancelling jobs *)

(** C10. [startDownload] changes nothing when the start-job call fails:
    whenever it throws, the whole state (tracked set and poll timer
    included) is what it was and no interval timer has been set, and it
    throws whenever the supervisor is not ready or the worker's answer is
    not a success. When it returns, the call succeeded, the identifier the
    worker returned has been added to the tracked set and the poll loop is
    running. *)
Theorem startDownload_atomic options answer r :
  let out := startDownload options answer r in
  match completion_of out with
  | Throw _ =>
      state_of out = r ∧
      Forall (λ e, e ≠ SetInterval POLL_INTERVAL) (effects_of out) ∧
      (ready (this r) = false ∨ ∀ result, answer ≠ Ok result)
  | Normal result =>
      ready (this r) = true ∧ answer = Ok result ∧
      activeDownloads (bridge_of out)
        = JsSet.add (started_downloadId result) (activeDownloads (this r)) ∧
      started_downloadId result ∈ activeDownloads (bridge_of out) ∧
      pollInterval (bridge_of out) = Some tt
  end.
Proof.
  intros out. subst out. destruct (ready (this r)) eqn:Hr.
  - unfold startDownload. rewrite bind_unfold, request_post by done.
    destruct answer as [e|e|st de dm|data];
      try (simpl; split_and!; [done|repeat constructor; done|right; done]).
    destruct r as [b cs n]. unfold startPolling, set_activeDownloads. run_M.
    destruct (pollInterval b) as [[]|] eqn:Hp; run_M; simpl;
      (split_and!; try done; apply elem_of_add; auto).
  - rewrite startDownload_not_ready by done.
    simpl. split_and!; [done|constructor|by left].
Qed.

(** C6 as stated fails. Cancelling does not always untrack the job: with
    the supervisor ready and job "a" tracked, a cancel call that the
    worker answers with status 500 leaves "a" in the tracked set. *)
Lemma cancelDownload_failure_keeps_job :
  "a" ∈ activeDownloads (this (tracking ["a"])) ∧
  "a" ∈ activeDownloads
          (bridge_of (cancelDownload "a" (NotOk 500 None None) (tracking ["a"]))) ∧
  ¬ (∀ r d answer,
       d ∉ activeDownloads (bridge_of (cancelDownload d answer r))).
Proof.
  split_and!.
  - vm_compute. apply list_elem_of_here.
  - vm_compute. apply list_elem_of_here.
  - intros H. apply (H (tracking ["a"]) "a" (NotOk 500 None None)).
    vm_compute. apply list_elem_of_here.
Qed.

(** C6, as the code has it. [cancelDownload] issues the cancel call when
    the supervisor is ready and nothing otherwise. It removes the
    identifier from the tracked set exactly when that call succeeds; when
    it throws (the worker or the network failed, or the supervisor was not
    ready) the state is unchanged, so a tracked job stays tracked. *)
Theorem cancelDownload_removes_on_success d answer r :
  let out := cancelDownload d answer r in
  (if ready (this r)
   then effects_of out
        = [Fetch (post_request (this r) "/api/download/cancel" (Body_downloadId d))]
   else effects_of out = []) ∧
  match completion_of out with
  | Normal _ =>
      ready (this r) = true ∧ (∃ reply, answer = Ok reply) ∧
      activeDownloads (bridge_of out) = JsSet.delete d (activeDownloads (this r)) ∧
      d ∉ activeDownloads (bridge_of out)
  | Throw _ =>
      state_of out = r ∧
      (ready (this r) = false ∨ ∀ reply, answer ≠ Ok reply)
  end.
Proof.
  intros out. subst out. destruct (ready (this r)) eqn:Hr.
  - unfold cancelDownload. rewrite bind_unfold, request_post by done.
    destruct answer as [e|e|st de dm|data];
      try (simpl; split_and!; [done|done|right; done]).
    destruct r as [b cs n]. unfold delete_active. run_M. simpl.
    split_and!; eauto. apply not_elem_of_delete.
  - rewrite cancelDownload_not_ready by done.
    simpl. split_and!; [done|done|by left].
Qed.

(** ** Invariants of methods *)

Section Preservation.
Context (I : Runtime → Prop) (E : Effect → Prop).

Lemma preserves_ret {A} (a : A) : preserves I E (ret a).
Proof. intros r Hr. split; [done|constructor]. Qed.

Lemma preserves_mret {A} (a : A) : preserves I E (mret a).
Proof. apply preserves_ret. Qed.

Lemma preserves_throw {A} e : preserves I E (throw (A:=A) e).
Proof. intros r Hr. split; [done|constructor]. Qed.

Lemma preserves_get_this : preserves I E get_this.
Proof. intros r Hr. split; [done|constructor]. Qed.

Lemma preserves_get_runtime : preserves I E get_runtime.
Proof. intros r Hr. split; [done|constructor]. Qed.

Lemma preserves_bind {A B} (m : M A) (k : A → M B) :
  preserves I E m → (∀ a, preserves I E (k a)) → preserves I E (m ≫= k).
Proof.
  intros Hm Hk r Hr. rewrite bind_unfold.
  destruct (Hm r Hr) as [H1 H2]. unfold state_of, effects_of in H1, H2.
  destruct (m r) as [[[a|e] r1] e1]; simpl in *; [|done].
  destruct (Hk a r1 H1) as [H3 H4]. split; [done|].
  apply Forall_app; done.
Qed.

Lemma preserves_try_catch {A} (m : M A) (h : JsError → M A) :
  preserves I E m → (∀ e, preserves I E (h e)) → preserves I E (try_catch m h).
Proof.
  intros Hm Hh r Hr. unfold try_catch.
  destruct (Hm r Hr) as [H1 H2]. unfold state_of, effects_of in H1, H2.
  destruct (m r) as [[[a|e] r1] e1]; simpl in *; [done|].
  destruct (Hh e r1 H1) as [H3 H4]. unfold state_of, effects_of in H3, H4.
  destruct (h e r1) as [[c r2] e2]; simpl in *. split; [done|].
  apply Forall_app; done.
Qed.

Lemma preserves_for_each {A} (l : list A) (f : A → M unit) :
  (∀ x, preserves I E (f x)) → preserves I E (for_each l f).
Proof.
  intros Hf. induction l as [|x l IH]; simpl.
  - apply preserves_ret.
  - apply preserves_bind; [apply Hf|intros _; apply IH].
Qed.

Lemma preserves_update f :
  (∀ b cs n, I {| this := b; children := cs; promises := n |} →
             I {| this := f b; children := cs; promises := n |}) →
  preserves I E (update f).
Proof. intros Hf [b cs n] Hr. split; [by apply Hf|constructor]. Qed.

Lemma preserves_update_children f :
  (∀ b cs n, I {| this := b; children := cs; promises := n |} →
             I {| this := b; children := f cs; promises := n |}) →
  preserves I E (update_children f).
Proof. intros Hf [b cs n] Hr. split; [by apply Hf|constructor]. Qed.

Lemma preserves_new_promise :
  (∀ b cs n, I {| this := b; children := cs; promises := n |} →
             I {| this := b; children := cs; promises := S n |}) →
  preserves I E new_promise.
Proof. intros Hf [b cs n] Hr. split; [by apply Hf|constructor]. Qed.

Lemma preserves_perform e : E e → preserves I E (perform e).
Proof. intros He r Hr. split; [done|by repeat constructor]. Qed.
End Preservation.

(** Splits a method along its structure, down to its state updates and
    effects. *)
Ltac preserves_step :=
  lazymatch goal with
  | |- preserves _ _ (mbind _ _) => apply preserves_bind; [|intros ?]
  | |- preserves _ _ (try_catch _ _) => apply preserves_try_catch; [|intros ?]
  | |- preserves _ _ (for_each _ _) => apply preserves_for_each; intros ?
  | |- preserves _ _ (ret _) => apply preserves_ret
  | |- preserves _ _ (mret _) => apply preserves_mret
  | |- preserves _ _ (throw _) => apply preserves_throw
  | |- preserves _ _ get_this => apply preserves_get_this
  | |- preserves _ _ get_runtime => apply preserves_get_runtime
  | |- preserves _ _ (emit _) => apply preserves_perform
  | |- preserves _ _ (perform _) => apply preserves_perform
  | |- preserves _ _ (update _) => apply preserves_update; intros ???
  | |- preserves _ _ (update_children _) =>
      apply preserves_update_children; intros ???
  | |- preserves _ _ new_promise => apply preserves_new_promise; intros ???
  | |- preserves _ _ (if ?c then _ else _) => destruct c
  | |- preserves _ _ (match ?x with _ => _ end) => destruct x
  | |- preserves _ _ (let '(_, _) := ?x in _) => destruct x
  end.

Ltac preserves_auto := repeat preserves_step.

(** ** What a start attempt leaves alone *)

Ltac policy_leaf :=
  try exact I;
  try solve [unfold policy_kept in *; simpl in *; intuition auto].

Lemma stopPolling_policy k : preserves (policy_kept k) any_effect stopPolling.
Proof. unfold stopPolling. preserves_auto; policy_leaf. Qed.

Lemma onProcessEvent_policy k proc ev :
  preserves (policy_kept k) any_effect (onProcessEvent proc ev).
Proof.
  unfold onProcessEvent, onStdout, onStderr, onError, onExit, onExit_stop,
    push_output.
  destruct ev; preserves_auto; policy_leaf; apply stopPolling_policy.
Qed.

Lemma deliver_policy k evs : preserves (policy_kept k) any_effect (deliver evs).
Proof.
  unfold deliver. preserves_auto; policy_leaf. apply onProcessEvent_policy.
Qed.

Lemma waitForServer_policy k e maxAttempts intervalMs remaining i :
  preserves (policy_kept k) any_effect
    (waitForServer_from e maxAttempts intervalMs remaining i).
Proof.
  revert i. induction remaining as [|n IH]; intros i; simpl.
  - preserves_auto.
  - unfold process_state, probe.
    preserves_auto; policy_leaf; try apply deliver_policy; apply IH.
Qed.

Lemma start_policy k e : preserves (policy_kept k) any_effect (start e).
Proof.
  unfold start, findAvailablePort, getPythonCommand, spawn, waitForServer.
  preserves_auto; policy_leaf; apply waitForServer_policy.
Qed.

(** ** Restart policy *)

Lemma restarts_interval_cleared b : restarts (interval_cleared b) = [].
Proof. unfold interval_cleared. by destruct (pollInterval b). Qed.

Lemma statuses_interval_cleared b : statuses (interval_cleared b) = [].
Proof. unfold interval_cleared. by destruct (pollInterval b). Qed.

Lemma onExit_crash r c signal :
  shouldRestart (this r) = true → c ≠ 0 →
  onExit (Some c) signal r =
    (Normal tt,
     {| this := after_crash (this r); children := children r;
        promises := promises r |},
     interval_cleared (this r) ++
     if bool_decide (retryCount (this r) + 1 ≤ maxRetries (this r))
     then [Emit (Emit_status (retrying (after_crash (this r))));
           SetTimeout Cb_start (backoff (retryCount (this r) + 1))]
     else [Emit (Emit_status (gave_up (after_crash (this r))))]).
Proof.
  intros Hs Hc. destruct r as [b cs n]. destruct b. simpl in *. subst.
  unfold onExit, stopPolling, crashed, interval_cleared. run_M. simpl.
  rewrite (bool_decide_eq_false_2 (c = 0)) by done.
  destruct pollInterval0; run_M; simpl; case_bool_decide; reflexivity.
Qed.

(** C3. Let the worker exit with a nonzero exit code while auto-restart is
    on, the retry cap being 3, and let this be the n-th consecutive
    failure, that is, the failure counter stands at n - 1. The counter
    becomes n. For n ≤ 3 exactly one restart is scheduled, after
    min(2000 × 2^(n-1), 16000) ms, with one interim status event naming
    the attempt. For n > 3, after the three retries are used up, no
    restart is scheduled and exactly one status event is emitted, the
    terminal failure carrying the last error. *)
Theorem restart_policy r code signal n :
  shouldRestart (this r) = true → maxRetries (this r) = 3 →
  code ≠ 0 → 1 ≤ n → retryCount (this r) = n - 1 →
  let out := onExit (Some code) signal r in
  retryCount (bridge_of out) = n ∧
  if bool_decide (n ≤ 3) then
    restarts (effects_of out) = [Z.min (2000 * 2 ^ (n - 1)) 16000] ∧
    statuses (effects_of out) = [retry_notice n]
  else
    restarts (effects_of out) = [] ∧
    statuses (effects_of out) = [terminal_failure (lastError (this r))].
Proof.
  intros Hs Hm Hc Hn Hk out. subst out.
  rewrite onExit_crash by done.
  unfold bridge_of, state_of, effects_of. simpl.
  rewrite Hk, Hm. replace (n - 1 + 1) with n by lia.
  split; [done|].
  pose proof (restarts_interval_cleared (this r)) as Hr.
  pose proof (statuses_interval_cleared (this r)) as Ht.
  unfold restarts, statuses in *. rewrite !omap_app, Hr, Ht.
  unfold retrying, gave_up, retry_notice, terminal_failure, backoff.
  case_bool_decide; simpl; rewrite ?Hk, ?Hm;
    replace (n - 1 + 1) with n by lia; done.
Qed.

Lemma restart_policy_witness :
  shouldRestart (this failed_once) = true ∧
  maxRetries (this failed_once) = 3 ∧
  (1 ≠ 0) ∧ 1 ≤ 2 ∧ retryCount (this failed_once) = 2 - 1 ∧
  restarts (effects_of (onExit (Some 1) None failed_once)) = [4000] ∧
  statuses (effects_of (onExit (Some 1) None failed_once)) = [retry_notice 2].
Proof.
  split_and!; [reflexivity|reflexivity|done|done|reflexivity|..];
    apply (restart_policy failed_once 1 None 2 eq_refl eq_refl
             ltac:(done) ltac:(done) eq_refl).
Defined.

(** The whole crash loop, from a new supervisor: the worker dies with
    code 1 during the first probe of the first start and of each of the
    three restarts. Three restarts are scheduled, after 2000, 4000 and
    8000 ms; each failed attempt is followed by the failure status of
    [start] itself; the fourth crash brings the one terminal failure. *)
Lemma crash_loop_trace :
  let out := run crash_loop fresh in
  restarts (effects_of out) = [2000; 4000; 8000] ∧
  length (spawns (effects_of out)) = 4%nat ∧
  statuses (effects_of out) =
    [ retry_notice 1; start_failed; retry_notice 2; start_failed;
      retry_notice 3; start_failed; terminal_failure "boom"; start_failed ].
Proof. by vm_compute. Qed.

(** Case analysis on how far a start attempt gets. *)
Ltac start_cases e :=
  unfold start, findAvailablePort, getPythonCommand, spawn; run_M;
  repeat first
    [ progress (simpl; run_M)
    | match goal with
      | |- context [match availablePort e with _ => _ end] =>
          destruct (availablePort e) as [?|?]
      | |- context [if negb (existsSync e ?p) then _ else _] =>
          destruct (existsSync e p) eqn:?
      | |- context [if negb (is_dev e) then _ else _] =>
          destruct (is_dev e) eqn:?
      | |- context [bool_decide (?s < MIN_EXE_SIZE)] =>
          destruct (bool_decide (s < MIN_EXE_SIZE)) eqn:?
      | |- context [waitForServer e ?a ?i ?r] =>
          destruct (waitForServer e a i r) as [[[[]|?] ?] ?] eqn:?
      end ].

(** A start attempt that ends ready has reset the failure counter. *)
Lemma start_ready_resets e r :
  ready (this r) = false →
  ready (bridge_of (start e r)) = true →
  completion_of (start e r) = Normal tt ∧
  retryCount (bridge_of (start e r)) = 0 ∧
  starting (bridge_of (start e r)) = false.
Proof.
  intros Hr. destruct r as [b cs n]. simpl in Hr.
  unfold bridge_of, state_of, completion_of.
  destruct (starting b) eqn:Hs.
  - unfold start. run_M. rewrite Hs. simpl. congruence.
  - start_cases e; rewrite ?Hs, ?Hr; start_cases e; simpl; try done.
Qed.

(** The n-th failure in a row, as the state records it. *)
Lemma onExit_counts r c signal n :
  shouldRestart (this r) = true → maxRetries (this r) = 3 → c ≠ 0 →
  retryCount (this r) = n - 1 → 1 ≤ n ≤ 3 →
  let out := onExit (Some c) signal r in
  statuses (effects_of out) = [retry_notice n] ∧
  restarts (effects_of out) = [backoff n] ∧
  policy_kept 3 (state_of out) ∧
  retryCount (bridge_of out) = n.
Proof.
  intros Hs Hm Hc Hk Hn out. subst out. rewrite onExit_crash by done.
  unfold bridge_of, state_of, effects_of, policy_kept. simpl.
  pose proof (restarts_interval_cleared (this r)) as Hr.
  pose proof (statuses_interval_cleared (this r)) as Ht.
  unfold restarts, statuses in *. rewrite !omap_app, Hr, Ht.
  unfold retrying, retry_notice. rewrite Hk, Hm.
  replace (n - 1 + 1) with n by lia.
  rewrite bool_decide_eq_true_2 by lia. simpl. rewrite Hk, Hm.
  replace (n - 1 + 1) with n by lia. done.
Qed.

(** C4. Every start attempt that takes the supervisor to Ready leaves the
    failure counter at zero. So take a supervisor whose counter is zero.
    The worker crashes: this is attempt 1, restarted after 2000 ms. The
    restart reaches Ready, which puts the counter back to zero. The
    worker crashes again: this is attempt 1 again, not 2, restarted after
    2000 ms, and the crashes that follow it in a row are attempts 2 and
    3, each with its restart: the budget of three attempts is whole
    again. *)
Theorem ready_resets_counter :
  (∀ e r,
     ready (this r) = false → ready (bridge_of (start e r)) = true →
     retryCount (bridge_of (start e r)) = 0) ∧
  (∀ r e c1 s1 c2 s2 c3 s3 c4 s4,
     shouldRestart (this r) = true → maxRetries (this r) = 3 →
     retryCount (this r) = 0 →
     c1 ≠ 0 → c2 ≠ 0 → c3 ≠ 0 → c4 ≠ 0 →
     let crash1 := onExit (Some c1) s1 r in
     let restart := start e (state_of crash1) in
     let crash2 := onExit (Some c2) s2 (state_of restart) in
     let crash3 := onExit (Some c3) s3 (state_of crash2) in
     let crash4 := onExit (Some c4) s4 (state_of crash3) in
     ready (bridge_of restart) = true →
     (statuses (effects_of crash1) = [retry_notice 1] ∧
      restarts (effects_of crash1) = [2000]) ∧
     retryCount (bridge_of restart) = 0 ∧
     (statuses (effects_of crash2) = [retry_notice 1] ∧
      restarts (effects_of crash2) = [2000]) ∧
     (statuses (effects_of crash3) = [retry_notice 2] ∧
      restarts (effects_of crash3) = [4000]) ∧
     (statuses (effects_of crash4) = [retry_notice 3] ∧
      restarts (effects_of crash4) = [8000])).
Proof.
  split; [intros e r Hr Hready; by apply start_ready_resets|].
  intros r e c1 s1 c2 s2 c3 s3 c4 s4 Hs Hm Hk H1 H2 H3 H4.
  intros crash1 restart crash2 crash3 crash4 Hready.
  destruct (onExit_counts r c1 s1 1 Hs Hm H1) as (Ha & Hb & [Hc Hd] & He);
    [lia|lia|].
  fold crash1 in Ha, Hb, Hc, Hd, He.
  assert (ready (this (state_of crash1)) = false) as Hnr.
  { subst crash1. rewrite onExit_crash by done. reflexivity. }
  destruct (start_ready_resets e _ Hnr Hready) as (_ & Hz & _).
  destruct (start_policy 3 e (state_of crash1)) as [[Hp Hq] _]; [done|].
  fold restart in Hz, Hp, Hq.
  destruct (onExit_counts (state_of restart) c2 s2 1 Hq Hp H2)
    as (Ha2 & Hb2 & [Hc2 Hd2] & He2); [exact Hz|lia|].
  fold crash2 in Ha2, Hb2, Hc2, Hd2, He2.
  destruct (onExit_counts (state_of crash2) c3 s3 2 Hd2 Hc2 H3)
    as (Ha3 & Hb3 & [Hc3 Hd3] & He3); [done|lia|].
  fold crash3 in Ha3, Hb3, Hc3, Hd3, He3.
  destruct (onExit_counts (state_of crash3) c4 s4 3 Hd3 Hc3 H4)
    as (Ha4 & Hb4 & _); [done|lia|].
  fold crash4 in Ha4, Hb4.
  split_and!; done.
Qed.

Lemma ready_resets_counter_witness :
  let crash1 := onExit (Some 1) None fresh in
  let restart := start (packaged 20000000 (λ _, healthy)) (state_of crash1) in
  let crash2 := onExit (Some 1) None (state_of restart) in
  ready (bridge_of restart) = true ∧
  statuses (effects_of crash1) = [retry_notice 1] ∧
  retryCount (bridge_of restart) = 0 ∧
  statuses (effects_of crash2) = [retry_notice 1].
Proof.
  pose proof (proj2 ready_resets_counter fresh
    (packaged 20000000 (λ _, healthy))
    1 None 1 None 1 None 1 None eq_refl eq_refl eq_refl
    ltac:(done) ltac:(done) ltac:(done) ltac:(done) eq_refl) as H.
  cbv zeta in *. split_and!; [reflexivity|apply H..].
Defined.

(** ** Process launcher: the size of the bundled executable *)

(** C8 as stated fails at the threshold itself. A packaged executable of
    at most 10 MiB is not always refused: with exactly 10 × 1024 × 1024
    bytes the start attempt spawns the worker and reaches Ready. *)
Lemma exact_threshold_is_accepted :
  let out := start (packaged (10 * 1024 * 1024) (λ _, healthy)) fresh in
  completion_of out = Normal tt ∧
  ready (bridge_of out) = true ∧
  spawns (effects_of out)
    = ["/opt/yt-helper/resources/python/yt-helper-backend"] ∧
  ¬ (∀ size script, size ≤ 10 * 1024 * 1024 →
       completion_of (start (packaged size script) fresh)
         = Throw (MkError (corrupt_message size))).
Proof.
  split_and!; [reflexivity..|].
  intros H. specialize (H (10 * 1024 * 1024) (λ _, healthy)).
  discriminate H. reflexivity.
Qed.

(** C8, as the code has it. A start attempt that has obtained a port and
    found the executable: in packaged mode with a size strictly below
    10 MiB it throws the corrupt-executable error, having spawned
    nothing and with one failure status as its only effect; in packaged
    mode with a size of 10 MiB or more, and in development mode whatever
    the size, it goes on to spawn the worker. *)
Theorem executable_size_check e r p :
  starting (this r) = false → ready (this r) = false →
  availablePort e = inl p →
  existsSync e (pythonPath (pythonCommand e p)) = true →
  let cmd := pythonCommand e p in
  let size := statSync_size e (pythonPath cmd) in
  let out := start e r in
  if negb (is_dev e) && bool_decide (size < MIN_EXE_SIZE) then
    completion_of out = Throw (MkError (corrupt_message size)) ∧
    effects_of out = [Emit (Emit_status {|
      status_ready := false;
      status_error := Some (corrupt_message size) |})] ∧
    children (state_of out) = children r ∧
    process (bridge_of out) = process (this r)
  else
    ∃ rest, effects_of out =
      Spawn (pythonPath cmd) (args cmd)
        (process_env e ++ env cmd ++ [("PYTHONUNBUFFERED", "1")]) :: rest.
Proof.
  intros Hs Hr Hp Hx cmd size out. subst cmd size out.
  destruct r as [b cs n]. simpl in Hs, Hr.
  unfold bridge_of, state_of, completion_of, effects_of.
  unfold start, findAvailablePort, getPythonCommand, spawn. run_M.
  rewrite Hs, Hr, Hp. simpl. run_M. simpl. rewrite Hx. simpl. run_M.
  destruct (is_dev e); simpl; run_M.
  - destruct (waitForServer _ _ _ _) as [[[[]|?] ?] ?]; simpl; eauto.
  - case_bool_decide; simpl; run_M; [done|].
    destruct (waitForServer _ _ _ _) as [[[[]|?] ?] ?]; simpl; eauto.
Qed.

Lemma executable_size_check_witness :
  let e := packaged 10485759 (λ _, healthy) in
  starting (this fresh) = false ∧ ready (this fresh) = false ∧
  availablePort e = inl 51000 ∧
  existsSync e (pythonPath (pythonCommand e 51000)) = true ∧
  completion_of (start e fresh) = Throw (MkError (corrupt_message 10485759)).
Proof.
  split_and!; [reflexivity..|].
  exact (proj1 (executable_size_check (packaged 10485759 (λ _, healthy))
    fresh 51000 eq_refl eq_refl eq_refl eq_refl)).
Defined.

(** ** Readiness timeout *)

(** C7 as stated fails. A readiness timeout is not retried: a worker
    that keeps running without ever answering its health endpoint makes
    [start] give up after 60 probes with the timeout error, and no
    restart has been scheduled; the failure counter has not moved. *)
Lemma readiness_timeout_schedules_nothing :
  let out := start (packaged 20000000 (λ _, unresponsive)) fresh in
  completion_of out
    = Throw (MkError "Python server failed to start after 30000ms") ∧
  length (fetches (effects_of out)) = 60%nat ∧
  restarts (effects_of out) = [] ∧
  retryCount (bridge_of out) = 0 ∧
  ready (bridge_of out) = false ∧
  ¬ (∀ script,
       (∀ i, health (script i) ≠ Plain_response true) →
       restarts (effects_of (start (packaged 20000000 script) fresh)) ≠ []).
Proof.
  split_and!; [by vm_compute..|].
  intros H. apply (H (λ _, unresponsive)); [done|]. by vm_compute.
Qed.

Lemma diagnostics_only_refl r : diagnostics_only r r.
Proof. destruct r as [[] ? ?]. by repeat split. Qed.

Lemma diagnostics_only_trans r1 r2 r3 :
  diagnostics_only r1 r2 → diagnostics_only r2 r3 → diagnostics_only r1 r3.
Proof.
  destruct r1 as [[] ? ?], r2 as [[] ? ?], r3 as [[] ? ?].
  unfold diagnostics_only, set_outputBuffer, set_lastError. simpl.
  intros (-> & -> & H1) (-> & -> & H2).
  inversion H1; inversion H2; subst. by repeat split.
Qed.

Lemma onProcessEvent_output proc ev r :
  is_output ev →
  completion_of (onProcessEvent proc ev r) = Normal tt ∧
  effects_of (onProcessEvent proc ev r) = [] ∧
  diagnostics_only r (state_of (onProcessEvent proc ev r)).
Proof.
  destruct r as [[] ? ?].
  destruct ev; simpl; try done; intros _;
    unfold onStdout, onStderr, push_output; run_M; simpl;
    case_bool_decide; by repeat split.
Qed.

Lemma deliver_output evs r :
  Forall is_output evs →
  completion_of (deliver evs r) = Normal tt ∧
  effects_of (deliver evs r) = [] ∧
  diagnostics_only r (state_of (deliver evs r)).
Proof.
  intros Hevs. revert r. induction Hevs as [|ev evs Hev _ IH]; intros r.
  - split_and!; [done..|apply diagnostics_only_refl].
  - unfold deliver in *. simpl. rewrite bind_unfold.
    destruct (process (this r)) as [proc|] eqn:Hproc.
    + assert ((get_this ≫= λ b, match process b with
                | Some proc => onProcessEvent proc ev
                | None => ret tt end) r = onProcessEvent proc ev r) as ->.
      { unfold get_this. run_M. rewrite Hproc.
        by destruct (onProcessEvent proc ev r) as [[[] ?] ?]. }
      destruct (onProcessEvent_output proc ev r Hev) as (H1 & H2 & H3).
      unfold completion_of, effects_of, state_of in H1, H2, H3.
      destruct (onProcessEvent proc ev r) as [[c r1] e1]. simpl in *.
      subst c e1. destruct (IH r1) as (H4 & H5 & H6).
      split_and!; [done|done|]. eapply diagnostics_only_trans; done.
    + assert ((get_this ≫= λ b, match process b with
                | Some proc => onProcessEvent proc ev
                | None => ret tt end) r = (Normal tt, r, [])) as ->.
      { unfold get_this. run_M. by rewrite Hproc. }
      apply IH.
Qed.

Lemma probing_diagnostics_only r r' :
  diagnostics_only r r' → probing r → probing r'.
Proof.
  intros (Hc & _ & Ht) (proc & c & Hp & Hl & Hk & Hx).
  exists proc, c. rewrite Ht, Hc. by repeat split.
Qed.

Lemma process_state_probing r :
  probing r → process_state r = (Normal (false, "null"), r, []).
Proof.
  intros (proc & c & Hp & Hc & Hk & Hx). unfold process_state. run_M.
  rewrite Hp. simpl. rewrite Hc. simpl. by rewrite Hk, Hx.
Qed.

Lemma probe_unhealthy e i r :
  Forall is_output (during_fetch (probes e i)) →
  health (probes e i) ≠ Plain_response true →
  completion_of (probe e i r) = Normal false ∧
  Forall is_fetch (effects_of (probe e i r)) ∧
  diagnostics_only r (state_of (probe e i r)).
Proof.
  intros Hev Hh. destruct (deliver_output _ r Hev) as (H1 & H2 & H3).
  unfold completion_of, effects_of, state_of in *.
  unfold probe. run_M.
  destruct (deliver (during_fetch (probes e i)) r) as [[c r1] e1].
  simpl in *. subst c e1.
  destruct (health (probes e i)) as [err|[]]; try done; run_M; simpl;
    (split_and!; [done|repeat constructor; by eexists|done]).
Qed.

Lemma waitForServer_times_out e maxAttempts intervalMs remaining i r :
  still_running e → never_healthy e → probing r →
  let out := waitForServer_from e maxAttempts intervalMs remaining i r in
  completion_of out
    = Throw (MkError (timeout_message maxAttempts intervalMs)) ∧
  Forall is_fetch (effects_of out) ∧
  diagnostics_only r (state_of out).
Proof.
  intros Hrun Hbad. revert i r.
  induction remaining as [|n IH]; intros i r Hr; simpl.
  - split_and!; [done|constructor|apply diagnostics_only_refl].
  - rewrite bind_unfold, process_state_probing by done.
    unfold completion_of, state_of, effects_of. run_M.
    destruct (Hrun i) as [Hf Hs].
    destruct (probe_unhealthy e i r Hf (Hbad i)) as (H1 & H2 & H3).
    unfold completion_of, state_of, effects_of in H1, H2, H3.
    destruct (probe e i r) as [[c r1] e1]. simpl in *. subst c.
    destruct (deliver_output _ r1 Hs) as (H4 & H5 & H6).
    unfold completion_of, state_of, effects_of in H4, H5, H6.
    destruct (deliver (during_sleep (probes e i)) r1) as [[c r2] e2].
    simpl in *. subst c e2.
    assert (diagnostics_only r r2) as H7
      by (eapply diagnostics_only_trans; done).
    destruct (IH (S i) r2) as (H8 & H9 & H10);
      [by eapply probing_diagnostics_only|].
    unfold completion_of, state_of, effects_of in H8, H9, H10.
    destruct (waitForServer_from e maxAttempts intervalMs n (S i) r2)
      as [[c r3] e3]. simpl in *. subst c.
    split_and!; [done| |by eapply diagnostics_only_trans].
    by apply Forall_app.
Qed.

Lemma restarts_fetch es : Forall is_fetch es → restarts es = [].
Proof. induction 1 as [|? ? [q ->] _ IH]; simpl; done. Qed.

Lemma statuses_fetch es : Forall is_fetch es → statuses es = [].
Proof. induction 1 as [|? ? [q ->] _ IH]; simpl; done. Qed.

(** C7, as the code has it. A start attempt that spawns the worker and
    then finds it running but never healthy through all 60 probes throws
    the timeout error and emits one failure status. It schedules no
    restart and leaves the failure counter where it was: the supervisor
    is left not ready and not starting, with nothing pending: restarts
    are scheduled by the ['exit'] listener alone. *)
Theorem readiness_timeout_not_retried e r p :
  starting (this r) = false → ready (this r) = false →
  availablePort e = inl p →
  existsSync e (pythonPath (pythonCommand e p)) = true →
  is_dev e = true
    ∨ MIN_EXE_SIZE ≤ statSync_size e (pythonPath (pythonCommand e p)) →
  still_running e → never_healthy e →
  let out := start e r in
  completion_of out = Throw (MkError (timeout_message 60 500)) ∧
  restarts (effects_of out) = [] ∧
  statuses (effects_of out) = [{|
    status_ready := false;
    status_error := Some (timeout_message 60 500) |}] ∧
  retryCount (bridge_of out) = retryCount (this r) ∧
  ready (bridge_of out) = false ∧
  starting (bridge_of out) = false ∧
  lastError (bridge_of out) = timeout_message 60 500.
Proof.
  intros Hs Hr Hp Hx Hsize Hrun Hbad out. subst out.
  destruct r as [b cs n]. simpl in Hs, Hr.
  unfold bridge_of, state_of, completion_of, effects_of.
  unfold start, findAvailablePort, getPythonCommand, spawn. run_M.
  rewrite Hs, Hr, Hp. simpl. run_M. simpl. rewrite Hx. simpl. run_M.
  assert ((if negb (is_dev e)
           then if bool_decide
                     (statSync_size e (pythonPath (pythonCommand e p))
                      < MIN_EXE_SIZE)
                then true else false
           else false) = false) as Hcheck.
  { destruct Hsize as [->|Hge]; [done|].
    rewrite bool_decide_eq_false_2 by lia. by destruct (is_dev e). }
  destruct (negb (is_dev e)); [case_bool_decide; [done|]|]; run_M;
  (match goal with
   | |- context [waitForServer e 60 500 ?r'] =>
       destruct (waitForServer_times_out e 60 500 60 0 r' Hrun Hbad)
         as (H1 & H2 & H3 & H4 & H5);
       [ eexists (length cs), _; simpl; split_and!;
         [done|by apply list_lookup_middle|done|done]
       | unfold completion_of, state_of, effects_of, waitForServer in *;
         destruct (waitForServer_from e 60 500 60 0 r') as [[c r1] e1] ]
   end);
  simpl in *; subst c; run_M; simpl; rewrite H5; simpl;
  unfold restarts, statuses in *; simpl;
  rewrite !omap_app; simpl;
  pose proof (restarts_fetch _ H2) as Hr1;
  pose proof (statuses_fetch _ H2) as Hr2;
  unfold restarts, statuses in *; rewrite ?Hr1, ?Hr2; done.
Qed.

Lemma readiness_timeout_not_retried_witness :
  let e := packaged 20000000 (λ _, unresponsive) in
  starting (this fresh) = false ∧ ready (this fresh) = false ∧
  availablePort e = inl 51000 ∧
  existsSync e (pythonPath (pythonCommand e 51000)) = true ∧
  MIN_EXE_SIZE ≤ statSync_size e (pythonPath (pythonCommand e 51000)) ∧
  still_running e ∧ never_healthy e ∧
  restarts (effects_of (start e fresh)) = [] ∧
  retryCount (bridge_of (start e fresh)) = 0.
Proof.
  assert (still_running (packaged 20000000 (λ _, unresponsive))) as Hrun
    by (intros i; split; constructor).
  assert (never_healthy (packaged 20000000 (λ _, unresponsive))) as Hbad
    by (intros i; discriminate).
  assert (MIN_EXE_SIZE ≤ 20000000) as Hsize by (unfold MIN_EXE_SIZE; lia).
  pose proof (readiness_timeout_not_retried
    (packaged 20000000 (λ _, unresponsive)) fresh 51000
    eq_refl eq_refl eq_refl eq_refl (or_intror Hsize) Hrun Hbad) as H.
  cbv zeta in *. split_and!; [reflexivity..|exact Hsize|exact Hrun|exact Hbad| |];
    apply H.
Defined.

(** ** Job tracker: the reconciliation loop *)

Lemma clearDownload_run d answer r :
  clearDownload d answer r = (Normal tt, r, [Fetch (clear_request (this r) d)]).
Proof. unfold clearDownload. run_M. by destruct answer. Qed.

(** C2 as stated fails for [cancelled], which is not forwarded to the
    host: a tick that receives a cancelled record of the tracked job "a"
    untracks it and clears it on the worker but emits nothing. *)
Lemma cancelled_record_emits_nothing :
  let out := pollTick (Poll_listing [record "a" cancelled])
               (λ _, Plain_response true) (tracking ["a"]) in
  emitted (effects_of out) = [] ∧
  activeDownloads (bridge_of out) = [] ∧
  ¬ (∀ cleared p r, status p = cancelled →
       emitted (effects_of (handle_progress cleared p r)) ≠ []).
Proof.
  split_and!; [by vm_compute..|].
  intros H.
  by apply (H (λ _, Plain_response true) (record "a" cancelled) (tracking ["a"])).
Qed.

Lemma handle_progress_run cleared p r :
  handle_progress cleared p r =
  match status p with
  | complete =>
      (Normal tt, untrack (downloadId p) r,
       [Emit (Emit_complete p); Fetch (clear_request (this r) (downloadId p))])
  | error =>
      (Normal tt, untrack (downloadId p) r,
       [Emit (Emit_error p); Fetch (clear_request (this r) (downloadId p))])
  | cancelled =>
      (Normal tt, untrack (downloadId p) r,
       [Fetch (clear_request (this r) (downloadId p))])
  | _ => (Normal tt, r, [Emit (Emit_progress p)])
  end.
Proof.
  unfold handle_progress, delete_active.
  destruct (status p); run_M; rewrite ?clearDownload_run; try done;
    by destruct r.
Qed.

(** C2, as the code has it. The loop of the poll callback treats a record
    by its status. For [complete] and for [error] it emits the terminal
    event, removes the identifier from the tracked set and issues the
    clear call. For [cancelled] it removes the identifier and issues the
    clear call, and emits no event. Otherwise it emits a progress event
    and changes nothing. The outcome of the clear call appears nowhere in
    the result: its failure is ignored. *)
Theorem terminal_record_handling cleared p r :
  let clear := Fetch (clear_request (this r) (downloadId p)) in
  handle_progress cleared p r =
  match status p with
  | complete =>
      (Normal tt, untrack (downloadId p) r, [Emit (Emit_complete p); clear])
  | error =>
      (Normal tt, untrack (downloadId p) r, [Emit (Emit_error p); clear])
  | cancelled => (Normal tt, untrack (downloadId p) r, [clear])
  | _ => (Normal tt, r, [Emit (Emit_progress p)])
  end ∧
  downloadId p ∉ activeDownloads (this (untrack (downloadId p) r)).
Proof.
  split; [apply handle_progress_run|apply not_elem_of_delete].
Qed.

(** ** At most one terminal event? *)

(** C1 as stated fails. A job can get more than one terminal event, and
    the loop acts on untracked jobs too: with "a" and "b" tracked, the
    first tick emits [complete] for "a" and untracks it, and the second
    tick emits [complete] for "a" again although "a" is no longer
    tracked. The push handler has no tracked set at all: it forwards
    every terminal message. *)
Lemma terminal_event_delivered_twice :
  let first := run (take 1 replayed_listing) (tracking ["a"; "b"]) in
  let both := run replayed_listing (tracking ["a"; "b"]) in
  activeDownloads (bridge_of first) = ["b"] ∧
  terminal_events "a" (effects_of both)
    = [Emit_complete (record "a" complete); Emit_complete (record "a" complete)] ∧
  terminal_events "a"
    (effects_of ((onmessage (Some (record "a" complete));;
                  onmessage (Some (record "a" complete))) fresh))
    = [Emit_complete (record "a" complete); Emit_complete (record "a" complete)] ∧
  ¬ (∀ inputs d r,
       (length (terminal_events d (effects_of (run inputs r))) ≤ 1)%nat).
Proof.
  split_and!; [by vm_compute..|].
  intros H. specialize (H replayed_listing "a" (tracking ["a"; "b"])).
  vm_compute in H. lia.
Qed.

Lemma terminal_events_app d es1 es2 :
  terminal_events d (es1 ++ es2) = terminal_events d es1 ++ terminal_events d es2.
Proof. unfold terminal_events, emitted. by rewrite omap_app, filter_app. Qed.

Lemma listed_terminal_cons d p l :
  listed_terminal d (p :: l) = listed_terminal d [p] ++ listed_terminal d l.
Proof.
  unfold listed_terminal. simpl.
  by destruct (if bool_decide (downloadId p = d) then terminal_notice p else None).
Qed.

Lemma filter_terminal_one d ev :
  filter (λ ev, terminal_event_of d ev = true) [ev]
  = if terminal_event_of d ev then [ev] else [].
Proof.
  rewrite filter_cons, filter_nil.
  destruct (terminal_event_of d ev); by case_decide.
Qed.

Lemma handle_progress_summary cleared p r :
  let out := handle_progress cleared p r in
  completion_of out = Normal tt ∧
  (∀ d, terminal_events d (effects_of out) = listed_terminal d [p]) ∧
  (∀ x, x ∈ activeDownloads (bridge_of out) ↔
        (x ∈ activeDownloads (this r) ∧
         (downloadId p = x → is_terminal (status p) = false))).
Proof.
  intros out. subst out. rewrite handle_progress_run.
  unfold listed_terminal, terminal_notice, terminal_events,
    bridge_of, state_of, effects_of, completion_of.
  destruct (status p) eqn:Hs; simpl; rewrite ?Hs;
    (split_and!; [done| |]);
    try (intros d; rewrite ?filter_terminal_one; simpl;
         by case_bool_decide);
    intros x; rewrite ?elem_of_delete; simpl;
    (split;
     [ intros H; repeat split; try tauto; try (intros _; reflexivity);
       intros Heq; destruct H as [Hne _]; congruence
     | intros [Hx Hf]; repeat split; try tauto;
       intros Heq; specialize (Hf (eq_sym Heq)); discriminate ]).
Qed.

(** What the loop of one tick does with a listing. *)
Lemma for_each_handle_progress cleared l r :
  let out := for_each l (handle_progress cleared) r in
  completion_of out = Normal tt ∧
  (∀ d, terminal_events d (effects_of out) = listed_terminal d l) ∧
  (∀ x, x ∈ activeDownloads (bridge_of out) ↔
        x ∈ activeDownloads (this r) ∧
        ∀ p, p ∈ l → downloadId p = x → is_terminal (status p) = false).
Proof.
  revert r. induction l as [|p l IH]; intros r; cbn [for_each].
  - split_and!; [done..|]. intros x. split; [|tauto].
    intros Hx. split; [done|]. intros p Hp. by apply elem_of_nil in Hp.
  - rewrite bind_unfold.
    pose proof (handle_progress_summary cleared p r) as Hp.
    unfold completion_of, state_of, effects_of, bridge_of in Hp.
    destruct (handle_progress cleared p r) as [[c r1] e1].
    cbn [fst snd] in Hp. destruct Hp as (-> & He & Ha).
    destruct (IH r1) as (H1 & H2 & H3).
    unfold completion_of, state_of, effects_of, bridge_of in *.
    cbn [fst snd] in *.
    split_and!; [done| |].
    + intros d. by rewrite terminal_events_app, H2, He, (listed_terminal_cons d p l).
    + intros x. rewrite H3, Ha. split.
      * intros [[Hx Hnew] Hrest]. split; [done|].
        intros q [->|Hq]%elem_of_cons; auto.
      * intros [Hx Hall]. split_and!; [done| |].
        -- intros Heq. apply (Hall p); [apply list_elem_of_here|done].
        -- intros q Hq. apply Hall. by apply list_elem_of_further.
Qed.

Ltac quiet_leaf := try solve [exact I | done].

Lemma terminal_events_quiet d es :
  Forall no_job_event es → terminal_events d es = [].
Proof.
  induction 1 as [|e es He _ IH]; [done|].
  change (e :: es) with ([e] ++ es). rewrite terminal_events_app, IH.
  by destruct e as [[]| | | | | | |].
Qed.

Lemma stopPolling_quiet : preserves any_state no_job_event stopPolling.
Proof. unfold stopPolling. preserves_auto; quiet_leaf. Qed.

Lemma startPolling_quiet : preserves any_state no_job_event startPolling.
Proof. unfold startPolling. preserves_auto; quiet_leaf. Qed.

Lemma request_quiet {T} endpoint options (answer : FetchAnswer T) :
  preserves any_state no_job_event (request endpoint options answer).
Proof. unfold request. preserves_auto; quiet_leaf. Qed.

Lemma kill_quiet proc sig : preserves any_state no_job_event (kill proc sig).
Proof. unfold kill. preserves_auto; quiet_leaf. Qed.

Lemma onProcessEvent_quiet proc ev :
  preserves any_state no_job_event (onProcessEvent proc ev).
Proof.
  unfold onProcessEvent, onStdout, onStderr, onError, onExit, onExit_stop,
    push_output.
  destruct ev; preserves_auto; quiet_leaf; apply stopPolling_quiet.
Qed.

Lemma deliver_quiet evs : preserves any_state no_job_event (deliver evs).
Proof.
  unfold deliver. preserves_auto; quiet_leaf. apply onProcessEvent_quiet.
Qed.

Lemma waitForServer_quiet e maxAttempts intervalMs remaining i :
  preserves any_state no_job_event
    (waitForServer_from e maxAttempts intervalMs remaining i).
Proof.
  revert i. induction remaining as [|n IH]; intros i; simpl.
  - preserves_auto.
  - unfold process_state, probe.
    preserves_auto; quiet_leaf; try apply deliver_quiet; apply IH.
Qed.

Lemma start_quiet e : preserves any_state no_job_event (start e).
Proof.
  unfold start, findAvailablePort, getPythonCommand, spawn, waitForServer.
  preserves_auto; quiet_leaf; apply waitForServer_quiet.
Qed.

Lemma stop_loop_quiet promise position :
  preserves any_state no_job_event (stop_loop promise position).
Proof.
  unfold stop_loop, stop_finish. preserves_auto; quiet_leaf. apply kill_quiet.
Qed.

Lemma stop_quiet : preserves any_state no_job_event stop.
Proof.
  unfold stop. preserves_auto; quiet_leaf;
    first [apply stopPolling_quiet | apply stop_loop_quiet].
Qed.

Lemma stop_resumed_quiet call answer :
  preserves any_state no_job_event (stop_resumed call answer).
Proof.
  unfold stop_resumed. preserves_auto; quiet_leaf. apply stop_loop_quiet.
Qed.

Lemma settle_quiet {A} (m : M A) :
  preserves any_state no_job_event m →
  preserves any_state no_job_event (settle m).
Proof. intros Hm. unfold settle. preserves_auto; quiet_leaf. Qed.

(** What a tick emits for job [d] stems from its listing. *)
Lemma pollTick_events answer cleared r d :
  terminal_events d (effects_of (pollTick answer cleared r)) =
  if ready (this r)
     && negb (bool_decide (JsSet.size (activeDownloads (this r)) = 0))
  then listed_terminal d (listing (Interval_tick answer cleared))
  else [].
Proof.
  unfold pollTick. run_M. destruct (ready (this r)); [|done].
  case_bool_decide; [done|]. simpl. run_M.
  destruct answer as [err| |err|l]; simpl; try done.
  destruct (for_each_handle_progress cleared l r) as (H1 & H2 & _).
  unfold completion_of, effects_of in *.
  destruct (for_each l (handle_progress cleared) r) as [[c r1] e1].
  simpl in *. subst c. simpl.
  change (Fetch ?q :: e1) with ([Fetch q] ++ e1).
  by rewrite terminal_events_app, H2.
Qed.

Lemma step_events i r d :
  terminal_events d (effects_of (step i r))
    `sublist_of` listed_terminal d (listing i).
Proof.
  assert (∀ m : M unit, preserves any_state no_job_event m →
    terminal_events d (effects_of (m r)) `sublist_of` listed_terminal d (listing i))
    as Hquiet.
  { intros m Hm. rewrite terminal_events_quiet by (by apply Hm).
    apply sublist_nil_l. }
  destruct i; simpl step.
  - apply Hquiet, settle_quiet, start_quiet.
  - apply Hquiet, settle_quiet, stop_quiet.
  - apply Hquiet, settle_quiet, request_quiet.
  - apply Hquiet, settle_quiet. unfold startDownload.
    preserves_auto; quiet_leaf; [apply request_quiet|apply startPolling_quiet].
  - apply Hquiet, settle_quiet. unfold cancelDownload, delete_active.
    preserves_auto; quiet_leaf. apply request_quiet.
  - apply Hquiet, onProcessEvent_quiet.
  - rewrite pollTick_events. destruct (_ && _); [done|apply sublist_nil_l].
  - apply Hquiet. unfold forceKill. preserves_auto; quiet_leaf; apply kill_quiet.
  - apply Hquiet. unfold shutdownTimeout. preserves_auto; quiet_leaf.
  - apply Hquiet, settle_quiet, stop_resumed_quiet.
Qed.

Lemma listed_terminal_app d l1 l2 :
  listed_terminal d (l1 ++ l2) = listed_terminal d l1 ++ listed_terminal d l2.
Proof. apply omap_app. Qed.

Lemma run_events inputs r d :
  terminal_events d (effects_of (run inputs r))
    `sublist_of` listed_terminal d (inputs ≫= listing).
Proof.
  revert r. induction inputs as [|i inputs IH]; intros r.
  - apply sublist_nil_l.
  - unfold run in *. cbn [for_each]. rewrite bind_unfold.
    change ((i :: inputs) ≫= listing) with (listing i ++ (inputs ≫= listing)).
    rewrite listed_terminal_app.
    pose proof (step_events i r d) as Hi. unfold effects_of in Hi.
    destruct (step i r) as [[[[]|err] r1] e1]; cbn [snd fst] in *.
    + unfold effects_of at 1. cbn [snd]. rewrite terminal_events_app.
      by apply sublist_app.
    + by apply sublist_inserts_r.
Qed.

Lemma pollTick_run l cleared r :
  pollTick (Poll_listing l) cleared r =
  if ready (this r)
     && negb (bool_decide (JsSet.size (activeDownloads (this r)) = 0))
  then (Normal tt, state_of (for_each l (handle_progress cleared) r),
        Fetch (progress_request (this r))
          :: effects_of (for_each l (handle_progress cleared) r))
  else (Normal tt, r, []).
Proof.
  unfold pollTick. run_M. destruct (ready (this r)); [|done].
  case_bool_decide; [done|]. simpl. run_M.
  destruct (for_each_handle_progress cleared l r) as (H1 & _).
  unfold completion_of in *.
  destruct (for_each l (handle_progress cleared) r) as [[c r1] e1].
  simpl in *. by subst c.
Qed.

(** C1, as the code has it. A tick that runs (supervisor ready, tracked
    set not empty) and receives a listing goes through every record of
    it, tracked or not: the terminal events it emits for a job are those
    of the job's [complete] and [error] records in the listing, one
    event per record, and afterwards no job with a terminal record in
    the listing is tracked. A tick that does not run does nothing. Over
    any sequence of inputs, the terminal events delivered for a job are
    drawn, in order, from the job's [complete] and [error] records in
    the listings received: there are never more events than such
    records, so a job whose terminal record the worker lists once gets
    one terminal event. *)
Theorem terminal_events_follow_listings inputs l cleared r d :
  let tick := pollTick (Poll_listing l) cleared r in
  (if ready (this r)
      && negb (bool_decide (JsSet.size (activeDownloads (this r)) = 0))
   then terminal_events d (effects_of tick) = listed_terminal d l ∧
        Forall (λ p, is_terminal (status p) = false
                     ∨ downloadId p ∉ activeDownloads (bridge_of tick)) l
   else tick = (Normal tt, r, [])) ∧
  terminal_events d (effects_of (run inputs r))
    `sublist_of` listed_terminal d (inputs ≫= listing) ∧
  (length (terminal_events d (effects_of (run inputs r)))
   ≤ length (listed_terminal d (inputs ≫= listing)))%nat.
Proof.
  intros tick. split_and!.
  - pose proof (pollTick_events (Poll_listing l) cleared r d) as He.
    pose proof (pollTick_run l cleared r) as Hr.
    fold tick in He, Hr.
    destruct (ready (this r) && _); [|done].
    split; [done|]. rewrite Hr. unfold bridge_of, state_of. cbn [fst snd].
    destruct (for_each_handle_progress cleared l r) as (_ & _ & Ha).
    unfold bridge_of, state_of in Ha.
    apply Forall_forall. intros p Hp.
    destruct (is_terminal (status p)) eqn:Ht; [right|by left].
    intros [_ Hall]%Ha. specialize (Hall p Hp eq_refl). congruence.
  - apply run_events.
  - apply sublist_length, run_events.
Qed.

(** ** Shutdown *)

Lemma onExit_stop_all waiting r :
  for_each waiting onExit_stop r =
    (Normal tt,
     match waiting with
     | [] => r
     | _ => {| this := set_process None (this r); children := children r;
               promises := promises r |}
     end,
     Resolve <$> waiting).
Proof.
  revert r. induction waiting as [|p ws IH]; intros r; [done|].
  cbn [for_each]. rewrite bind_unfold. unfold onExit_stop at 1. run_M.
  rewrite IH. unfold completion_of, state_of, effects_of. simpl.
  destruct ws; by destruct r as [[] ? ?].
Qed.

Lemma onExit_normal code signal r :
  completion_of (onExit code signal r) = Normal tt ∧
  children (state_of (onExit code signal r)) = children r.
Proof.
  destruct r as [b cs n]. unfold onExit, stopPolling. run_M. simpl.
  destruct (pollInterval b); run_M; simpl;
    destruct (shouldRestart b && crashed code); run_M; simpl; try done;
    case_bool_decide; done.
Qed.

(** The exit of the child that a [stop] waits for ends that [stop]. *)
Lemma exit_resolves proc p code signal r :
  registered proc p r →
  let out := onProcessEvent proc (Exit code signal) r in
  Resolve p ∈ effects_of out ∧ process (bridge_of out) = None.
Proof.
  intros (c & Hc & Hp) out. subst out.
  unfold onProcessEvent. run_M. rewrite Hc. cbn [from_option].
  destruct (onExit_normal code signal
    {| this := this r; children := alter (exited code signal) proc (children r);
       promises := promises r |}) as [H1 H2].
  unfold completion_of, state_of in H1, H2.
  destruct (onExit code signal _) as [[c1 r1] e1]. simpl in H1, H2. subst c1.
  rewrite onExit_stop_all. simpl. split.
  - apply elem_of_app. right. by apply list_elem_of_fmap_2.
  - destruct (exitOnce c); [by apply elem_of_nil in Hp|done].
Qed.

(** The end of [stop], without and with a process. *)
Lemma stop_finish_without_process promise r :
  process (this r) = None →
  let out := stop_finish promise r in
  completion_of out = Normal tt ∧
  effects_of out = [Resolve promise] ∧
  process (bridge_of out) = None.
Proof.
  intros Hp out. subst out. destruct r as [b cs n]. simpl in Hp.
  unfold stop_finish. run_M. simpl. rewrite Hp. by run_M.
Qed.

Lemma stop_finish_with_process promise r proc :
  process (this r) = Some proc →
  let out := stop_finish promise r in
  completion_of out = Normal tt ∧
  Forall not_resolve (effects_of out) ∧
  SetTimeout (Cb_forceKill proc) 3000 ∈ effects_of out ∧
  SetTimeout (Cb_shutdownTimeout promise) 5000 ∈ effects_of out ∧
  (is_Some (children r !! proc) → registered proc promise (state_of out)).
Proof.
  intros Hp out. subst out. destruct r as [b cs n]. simpl in Hp.
  unfold stop_finish, kill, registered. run_M. simpl.
  rewrite Hp; run_M; simpl; rewrite list_lookup_alter_eq;
    destruct (cs !! proc) as [c|] eqn:Hc; simpl;
    try (destruct (alive _)); run_M; simpl;
    (split_and!;
     [ done
     | repeat first [apply Forall_app; split | apply Forall_cons; split
                    | apply Forall_nil | done ]
     | rewrite ?elem_of_cons, ?elem_of_app, ?elem_of_cons; auto 10
     | rewrite ?elem_of_cons, ?elem_of_app, ?elem_of_cons; auto 10
     | intros [c' Hc'];
       first [ done
             | rewrite ?list_lookup_alter_eq, ?Hc; simpl;
               eexists; split; [reflexivity|]; simpl;
               apply elem_of_app; right; apply list_elem_of_here ] ]).
Qed.

Lemma registered_signalled proc p proc' b cs n :
  registered proc p {| this := b; children := cs; promises := n |} →
  registered proc p {|
    this := b;
    children := alter (λ c, {|
      killed := true; exitCode := exitCode c; signalCode := signalCode c;
      exitOnce := exitOnce c |}) proc' cs;
    promises := n |}.
Proof.
  intros (c & Hc & Hp). unfold registered. simpl in *.
  destruct (decide (proc' = proc)) as [->|Hne].
  - rewrite list_lookup_alter_eq, Hc. simpl. by eexists.
  - rewrite list_lookup_alter_ne by done. by eexists.
Qed.

Ltac waiting_leaf :=
  try solve [exact I | done | by apply registered_signalled].

Lemma kill_waiting proc p proc' sig :
  preserves (registered proc p) not_resolve (kill proc' sig).
Proof. unfold kill. preserves_auto; waiting_leaf. Qed.

Lemma request_waiting {T} proc p endpoint options (answer : FetchAnswer T) :
  preserves (registered proc p) not_resolve (request endpoint options answer).
Proof. unfold request. preserves_auto; waiting_leaf. Qed.

Lemma step_waiting proc p i :
  shutdown_noise i → preserves (registered proc p) not_resolve (step i).
Proof.
  destruct i as [| | | | |proc' [| | |]| | | |]; simpl; try done; intros _;
    unfold settle, getVideoInfo, startDownload, startPolling, cancelDownload,
      delete_active, pollTick, handle_progress, clearDownload, forceKill,
      onStdout, onStderr, onError, push_output;
    preserves_auto; waiting_leaf;
    first [apply request_waiting | apply kill_waiting].
Qed.

Lemma run_waiting proc p noise :
  Forall shutdown_noise noise →
  preserves (registered proc p) not_resolve (run noise).
Proof.
  intros Hnoise. unfold run.
  induction Hnoise as [|i noise Hi _ IH]; cbn [for_each].
  - apply preserves_ret.
  - apply preserves_bind; [by apply step_waiting|intros _; apply IH].
Qed.

Lemma handle_valid_altered f proc b cs n :
  handle_valid {| this := b; children := cs; promises := n |} →
  handle_valid {| this := b; children := alter f proc cs; promises := n |}.
Proof.
  intros H q Hq. specialize (H q Hq). simpl in *.
  apply lookup_lt_is_Some. rewrite length_alter. by apply lookup_lt_is_Some.
Qed.

Ltac valid_leaf :=
  try solve [ exact I
            | done
            | by apply handle_valid_altered
            | unfold handle_valid in *; simpl in *; done ].

Lemma stopPolling_valid : preserves handle_valid any_effect stopPolling.
Proof. unfold stopPolling. preserves_auto; valid_leaf. Qed.

Lemma kill_valid proc sig : preserves handle_valid any_effect (kill proc sig).
Proof. unfold kill. preserves_auto; valid_leaf. Qed.

Lemma request_valid {T} endpoint options (answer : FetchAnswer T) :
  preserves handle_valid any_effect (request endpoint options answer).
Proof. unfold request. preserves_auto; valid_leaf. Qed.

Lemma onProcessEvent_valid proc ev :
  preserves handle_valid any_effect (onProcessEvent proc ev).
Proof.
  unfold onProcessEvent, onStdout, onStderr, onError, onExit, onExit_stop,
    push_output.
  destruct ev; preserves_auto; valid_leaf; apply stopPolling_valid.
Qed.

Lemma deliver_valid evs : preserves handle_valid any_effect (deliver evs).
Proof.
  unfold deliver. preserves_auto; valid_leaf. apply onProcessEvent_valid.
Qed.

Lemma waitForServer_valid e maxAttempts intervalMs remaining i :
  preserves handle_valid any_effect
    (waitForServer_from e maxAttempts intervalMs remaining i).
Proof.
  revert i. induction remaining as [|n IH]; intros i; simpl.
  - preserves_auto.
  - unfold process_state, probe.
    preserves_auto; valid_leaf; try apply deliver_valid; apply IH.
Qed.

Lemma spawn_valid e cmd : preserves handle_valid any_effect (spawn e cmd).
Proof.
  intros [b cs n] _. split; [|by repeat constructor].
  unfold spawn. run_M. simpl. intros proc [= <-]. simpl.
  rewrite list_lookup_middle by done. by eexists.
Qed.

Lemma start_valid e : preserves handle_valid any_effect (start e).
Proof.
  unfold start, findAvailablePort, getPythonCommand, waitForServer.
  preserves_auto; valid_leaf;
    first [apply spawn_valid | apply waitForServer_valid].
Qed.

Lemma stop_loop_valid promise position :
  preserves handle_valid any_effect (stop_loop promise position).
Proof.
  unfold stop_loop, stop_finish. preserves_auto; valid_leaf. apply kill_valid.
Qed.

Lemma stop_valid : preserves handle_valid any_effect stop.
Proof.
  unfold stop. preserves_auto; valid_leaf;
    first [apply stopPolling_valid | apply stop_loop_valid].
Qed.

Lemma stop_resumed_valid call answer :
  preserves handle_valid any_effect (stop_resumed call answer).
Proof.
  unfold stop_resumed. preserves_auto; valid_leaf. apply stop_loop_valid.
Qed.

Lemma step_valid i : preserves handle_valid any_effect (step i).
Proof.
  destruct i; simpl;
    unfold settle, getVideoInfo, startDownload, startPolling, cancelDownload,
      delete_active, pollTick, handle_progress, clearDownload, forceKill,
      shutdownTimeout;
    preserves_auto; valid_leaf;
    first [ apply request_valid | apply kill_valid | apply start_valid
          | apply stop_valid | apply stop_resumed_valid
          | apply onProcessEvent_valid ].
Qed.

(** Every state the supervisor can reach has a valid process handle. *)
Lemma handle_valid_run inputs : handle_valid (state_of (run inputs fresh)).
Proof.
  assert (preserves handle_valid any_effect (run inputs)) as H.
  { unfold run. apply preserves_for_each, step_valid. }
  by apply H.
Qed.

(** What holds from the end of the loop of [stop] on. Take any state in
    which [this.process], if set, refers to a child process (every
    reachable state is such, see [handle_valid_run]), and let a call of
    [stop] have come to the end of its loop. Without a process its
    promise is resolved at once and the handle is null. With a process
    the deadline timer of 5000 ms is set, and whatever inputs arrive
    before that timer fires, its callback resolves the promise and
    leaves the handle null. Until then nothing resolves the promise
    while the child only writes output, the force-kill timer fires, the
    poll timer ticks or the host makes calls; and should the child exit
    in that time, its exit resolves the promise and leaves the handle
    null. *)
Lemma stop_finish_resolves p r noise anything :
  handle_valid r → Forall shutdown_noise noise →
  let finishing := stop_finish p r in
  match process (this r) with
  | None =>
      effects_of finishing = [Resolve p] ∧ process (bridge_of finishing) = None
  | Some proc =>
      SetTimeout (Cb_shutdownTimeout p) 5000 ∈ effects_of finishing ∧
      (let timed_out :=
         step (Timer_shutdownTimeout p)
              (state_of (run anything (state_of finishing))) in
       effects_of timed_out = [Resolve p] ∧
       process (bridge_of timed_out) = None) ∧
      let waiting := run noise (state_of finishing) in
      Forall not_resolve (effects_of finishing ++ effects_of waiting) ∧
      (∀ code signal,
         let exit := step (Process_event proc (Exit code signal))
                       (state_of waiting) in
         Resolve p ∈ effects_of exit ∧ process (bridge_of exit) = None)
  end.
Proof.
  intros Hvalid Hnoise finishing. subst finishing.
  destruct (process (this r)) as [proc|] eqn:Hproc.
  - destruct (stop_finish_with_process p r proc Hproc)
      as (H1 & H2 & _ & H4 & H6).
    specialize (H6 (Hvalid proc Hproc)).
    destruct (run_waiting proc p noise Hnoise _ H6) as [H7 H8].
    cbv zeta. split_and!; [done| | |by apply Forall_app|].
    + by destruct (run anything _) as [[? [[] ? ?]] ?].
    + by destruct (run anything _) as [[? [[] ? ?]] ?].
    + intros code signal. by apply exit_resolves.
  - destruct (stop_finish_without_process p r Hproc) as (H1 & H2 & H3). done.
Qed.

(** ** A call of [stop] that is suspended *)

Lemma nobody_waits_altered f proc b cs n :
  (∀ c, exitOnce c = [] → exitOnce (f c) = []) →
  nobody_waits {| this := b; children := cs; promises := n |} →
  nobody_waits {| this := b; children := alter f proc cs; promises := n |}.
Proof.
  unfold nobody_waits. simpl. intros Hf Hcs.
  apply Forall_alter; [done|]. intros c _. apply Hf.
Qed.

Ltac nobody_leaf :=
  try solve [ exact I | done
            | by apply nobody_waits_altered
            | unfold nobody_waits; simpl; intros;
              apply Forall_app; split; [done|by repeat constructor] ].

Lemma stopPolling_nobody : preserves nobody_waits not_resolve stopPolling.
Proof. unfold stopPolling. preserves_auto; nobody_leaf. Qed.

Lemma onExit_nobody code signal :
  preserves nobody_waits not_resolve (onExit code signal).
Proof.
  unfold onExit. preserves_auto; nobody_leaf; apply stopPolling_nobody.
Qed.

Lemma onProcessEvent_nobody proc ev :
  preserves nobody_waits not_resolve (onProcessEvent proc ev).
Proof.
  destruct ev as [| | |code signal];
    [unfold onProcessEvent, onStdout, onStderr, onError, push_output;
     preserves_auto; nobody_leaf..|].
  intros r Hr.
  assert (from_option exitOnce [] (children r !! proc) = []) as Hnone.
  { destruct (children r !! proc) as [c|] eqn:Hc; [|done]. simpl.
    by apply (Forall_lookup_1 _ _ _ _ Hr Hc). }
  assert (nobody_waits {| this := this r;
            children := alter (exited code signal) proc (children r);
            promises := promises r |}) as Hr'.
  { destruct r as [b cs n]. by apply nobody_waits_altered. }
  destruct (onExit_nobody code signal _ Hr') as [H1 H2].
  unfold onProcessEvent, state_of, effects_of in *. run_M. rewrite Hnone.
  destruct (onExit code signal _) as [[[[]|err] r1] e1]; run_M; simpl in *;
    by rewrite ?app_nil_r.
Qed.

Lemma deliver_nobody evs : preserves nobody_waits not_resolve (deliver evs).
Proof.
  unfold deliver. preserves_auto; nobody_leaf. apply onProcessEvent_nobody.
Qed.

Lemma waitForServer_nobody e maxAttempts intervalMs remaining i :
  preserves nobody_waits not_resolve
    (waitForServer_from e maxAttempts intervalMs remaining i).
Proof.
  revert i. induction remaining as [|n IH]; intros i; simpl.
  - preserves_auto.
  - unfold process_state, probe.
    preserves_auto; nobody_leaf; try apply deliver_nobody; apply IH.
Qed.

Lemma request_nobody {T} endpoint options (answer : FetchAnswer T) :
  preserves nobody_waits not_resolve (request endpoint options answer).
Proof. unfold request. preserves_auto; nobody_leaf. Qed.

Lemma step_nobody i :
  while_suspended i → preserves nobody_waits not_resolve (step i).
Proof.
  destruct i as [| | | | |proc ev| | | |]; simpl; try done; intros _;
    unfold settle, start, findAvailablePort, getPythonCommand, spawn,
      waitForServer, getVideoInfo, startDownload, startPolling,
      cancelDownload, pollTick, handle_progress, delete_active,
      clearDownload, forceKill, kill;
    preserves_auto; nobody_leaf;
    first [ apply request_nobody | apply waitForServer_nobody
          | apply onProcessEvent_nobody ].
Qed.

Lemma run_nobody inputs :
  Forall while_suspended inputs →
  preserves nobody_waits not_resolve (run inputs).
Proof.
  intros Hin. unfold run.
  induction Hin as [|i inputs Hi _ IH]; cbn [for_each].
  - apply preserves_ret.
  - apply preserves_bind; [by apply step_nobody|intros _; apply IH].
Qed.

Lemma settle_throw {A} (m : M A) r err :
  m r = (Throw err, r, []) → settle m r = (Normal tt, r, []).
Proof. intros Hm. unfold settle. run_M. by rewrite Hm. Qed.

Ltac down_leaf :=
  try solve [ exact I | done
            | unfold down_with, JsSet.clear in *; simpl in *; tauto ].

(** While the supervisor is not ready, as [stop] leaves it, the set of
    tracked jobs stays as it is or is cleared, until [start] is called:
    no entry is added, none is removed alone. So the loop of a
    suspended [stop] finds the set it left, or the empty set. *)
Lemma set_kept_or_cleared ids i :
  no_start i → preserves (down_with ids) any_effect (step i).
Proof.
  destruct i as [| |u answer|o answer|d answer|proc ev|answer cleared| | |];
    simpl; try done; intros _.
  - unfold settle, stop, stopPolling, stop_loop, stop_finish, kill.
    preserves_auto; down_leaf.
  - intros r [Hr Ha]. unfold getVideoInfo.
    rewrite (settle_throw _ r _ (request_not_ready _ _ answer r Hr)).
    by split; [split|].
  - intros r [Hr Ha].
    rewrite (settle_throw _ r _ (startDownload_not_ready o answer r Hr)).
    by split; [split|].
  - intros r [Hr Ha].
    rewrite (settle_throw _ r _ (cancelDownload_not_ready d answer r Hr)).
    by split; [split|].
  - unfold onProcessEvent, onStdout, onStderr, onError, onExit, onExit_stop,
      stopPolling, push_output.
    destruct ev; preserves_auto; down_leaf.
  - intros r [Hr Ha]. unfold pollTick. run_M. rewrite Hr. simpl.
    by split; [split|].
  - unfold forceKill, kill. preserves_auto; down_leaf.
  - unfold shutdownTimeout. preserves_auto; down_leaf.
  - unfold settle, stop_resumed, stop_loop, stop_finish, kill.
    preserves_auto; down_leaf.
Qed.

(** C9 fails on the code. The supervisor is ready, its worker is up
    and job "a" is tracked. A call of [stop] turns the flags, clears the
    poll timer, sends the cancel request for "a" and is suspended at its
    [await]: no listener for the exit is registered and no deadline is
    set yet. As long as that request has not settled the promise is not
    resolved, whatever else happens: output, exits and errors of the
    worker, timers, calls of the host, [start] included. And when the
    worker exits while the request is awaited and the request is then
    rejected, the call goes on, registers its listener on a child that
    has exited already, sends no signal, and sets its timers: the
    promise is resolved by the deadline timer alone, 5000 ms after the
    request has settled, and the handle is not null before. *)
Theorem stop_misses_exit_and_deadline :
  let stopping := stop busy in
  let exited :=
    step (Process_event 0 (Exit (Some 0) None)) (state_of stopping) in
  let resumed :=
    step (Cancel_settled awaiting_a (Plain_rejected (MkError "fetch failed")))
         (state_of exited) in
  let timed_out := step (Timer_shutdownTimeout 0) (state_of resumed) in
  process (this busy) = Some 0%nat ∧ activeDownloads (this busy) = ["a"] ∧
  stopping = (Normal (0%nat, Some awaiting_a), stop_entered busy,
              [ClearInterval; Fetch (cancel_request (this busy) "a")]) ∧
  (∀ noise, Forall while_suspended noise →
     Forall not_resolve (effects_of (run noise (state_of stopping)))) ∧
  effects_of exited = [] ∧
  effects_of resumed = [ SetTimeout (Cb_forceKill 0) 3000;
                         SetTimeout (Cb_shutdownTimeout 0) 5000 ] ∧
  process (bridge_of resumed) = Some 0%nat ∧
  effects_of timed_out = [Resolve 0%nat] ∧
  process (bridge_of timed_out) = None.
Proof.
  cbv zeta.
  split_and!; [by vm_compute|by vm_compute|by vm_compute| |by vm_compute..].
  intros noise Hnoise. apply run_nobody; [done|].
  vm_compute. by repeat constructor.
Qed.

(** * Further properties of the supervisor *)

(** ** The exit listener when no restart is due *)

Lemma onExit_quiet r code signal :
  shouldRestart (this r) && crashed code = false →
  onExit code signal r =
    (Normal tt,
     {| this := after_exit (this r); children := children r;
        promises := promises r |},
     interval_cleared (this r)).
Proof.
  intros Hc. destruct r as [b cs n]. destruct b as [? ? ? ? ? ? ? ? ? timer ?].
  simpl in *. unfold onExit, stopPolling, interval_cleared. run_M. simpl.
  destruct timer; run_M; simpl; rewrite Hc; reflexivity.
Qed.

Lemma emitted_interval_cleared b : emitted (interval_cleared b) = [].
Proof. unfold interval_cleared. by destruct (pollInterval b). Qed.

(** X1. When the worker exits with code 0, or is ended by a signal (no
    exit code), or auto-restart is off, the ['exit'] listener marks the
    supervisor not ready and not starting and stops the poll loop; it
    emits no status event, schedules no restart and leaves the failure
    counter alone. *)
Theorem exit_without_restart r code signal :
  shouldRestart (this r) = false ∨ code = None ∨ code = Some 0 →
  onExit code signal r =
    (Normal tt,
     {| this := after_exit (this r); children := children r;
        promises := promises r |},
     interval_cleared (this r)) ∧
  restarts (effects_of (onExit code signal r)) = [] ∧
  emitted (effects_of (onExit code signal r)) = [].
Proof.
  intros H.
  assert (shouldRestart (this r) && crashed code = false) as Hc.
  { destruct H as [->|[->| ->]]; [done|..]; by destruct (shouldRestart (this r)). }
  rewrite onExit_quiet by done. unfold effects_of. cbn [snd].
  split_and!; [done|apply restarts_interval_cleared|apply emitted_interval_cleared].
Qed.

Lemma exit_without_restart_witness :
  (shouldRestart (this running) = false ∨ Some 0 = None ∨ Some 0 = Some 0) ∧
  restarts (effects_of (onExit (Some 0) None running)) = [] ∧
  emitted (effects_of (onExit (Some 0) None running)) = [].
Proof.
  split; [right; right; reflexivity|].
  apply (exit_without_restart running (Some 0) None).
  right; right; reflexivity.
Defined.

(** ** How a start attempt ends *)

(** X2. A start attempt that is not a no-op ends in one of two ways. It
    returns, and then the supervisor is ready and not starting, the
    failure counter is zero and the last thing done was to emit the
    ready status. Or it throws, and then the supervisor is neither ready
    nor starting, [lastError] is the message of the error thrown, and the
    last thing done was to emit the failure status with that message. *)
Theorem start_outcome e r :
  starting (this r) = false → ready (this r) = false →
  let out := start e r in
  match completion_of out with
  | Normal _ =>
      ready (bridge_of out) = true ∧ starting (bridge_of out) = false ∧
      retryCount (bridge_of out) = 0 ∧
      ∃ es, effects_of out = es ++ [Emit (Emit_status ready_status)]
  | Throw err =>
      ready (bridge_of out) = false ∧ starting (bridge_of out) = false ∧
      lastError (bridge_of out) = message err ∧
      ∃ es, effects_of out = es ++ [Emit (Emit_status (failure_status err))]
  end.
Proof.
  intros Hs Hr. destruct r as [b cs n]. simpl in Hs, Hr.
  unfold bridge_of, state_of, completion_of, effects_of.
  start_cases e; rewrite ?Hs, ?Hr; start_cases e; simpl;
    (split_and!; [done..|]);
    lazymatch goal with
    | |- ∃ es, [_] = _ => by exists []
    | |- ∃ es, ?a :: ?l ++ [_] = _ => by exists (a :: l)
    end.
Qed.

Lemma start_outcome_witness :
  starting (this fresh) = false ∧ ready (this fresh) = false ∧
  ready (bridge_of (start (packaged 20000000 (λ _, healthy)) fresh)) = true ∧
  retryCount (bridge_of (start (packaged 20000000 (λ _, healthy)) fresh)) = 0.
Proof.
  pose proof (start_outcome (packaged 20000000 (λ _, healthy)) fresh
                eq_refl eq_refl) as H.
  split_and!; [reflexivity|reflexivity|apply H|apply H].
Defined.

(** ** Failures before the worker is spawned *)

(** X3. When no port can be allocated, a start attempt throws the
    allocation error as it is. Its only effect is the failure status
    with that error's message: nothing is spawned, no restart is
    scheduled, and the process handle, the children and the failure
    counter are untouched. *)
Theorem start_without_port e r err :
  starting (this r) = false → ready (this r) = false →
  availablePort e = inr err →
  let out := start e r in
  completion_of out = Throw err ∧
  effects_of out = [Emit (Emit_status (failure_status err))] ∧
  children (state_of out) = children r ∧
  process (bridge_of out) = process (this r) ∧
  port (bridge_of out) = port (this r) ∧
  retryCount (bridge_of out) = retryCount (this r).
Proof.
  intros Hs Hr Hp out. subst out. destruct r as [b cs n]. simpl in Hs, Hr.
  unfold bridge_of, state_of, completion_of, effects_of.
  unfold start, findAvailablePort. run_M. rewrite Hs, Hr, Hp. simpl.
  run_M. done.
Qed.

Lemma start_without_port_witness :
  let e := {|
    is_dev := false; win32 := false; appPath := "/app";
    resourcesPath := "/res"; env_PATH := None; process_env := [];
    existsSync := λ _, true; statSync_size := λ _, 20000000;
    availablePort := inr (MkError "Could not allocate port");
    probes := λ _, healthy |} in
  starting (this fresh) = false ∧ ready (this fresh) = false ∧
  availablePort e = inr (MkError "Could not allocate port") ∧
  effects_of (start e fresh)
    = [Emit (Emit_status (failure_status (MkError "Could not allocate port")))].
Proof.
  split_and!; [reflexivity..|].
  match goal with
  | |- effects_of (start ?e _) = _ =>
      exact (proj1 (proj2 (start_without_port e fresh _ eq_refl eq_refl eq_refl)))
  end.
Defined.

Lemma start_not_found e r p :
  starting (this r) = false → ready (this r) = false →
  availablePort e = inl p →
  existsSync e (pythonPath (pythonCommand e p)) = false →
  start e r =
    (Throw (MkError ("Python executable not found at: "
                     +:+ pythonPath (pythonCommand e p))),
     {| this :=
          set_lastError ("Python executable not found at: "
                         +:+ pythonPath (pythonCommand e p))
            (set_ready false (set_starting false (set_port p
              (set_outputBuffer [] (set_shouldRestart true
                (set_starting true (this r)))))));
        children := children r; promises := promises r |},
     [Emit (Emit_status (failure_status
        (MkError ("Python executable not found at: "
                  +:+ pythonPath (pythonCommand e p)))))]).
Proof.
  intros Hs Hr Hp Hx. destruct r as [b cs n]. simpl in Hs, Hr.
  unfold start, findAvailablePort, getPythonCommand. run_M.
  rewrite Hs, Hr, Hp. simpl. run_M. simpl. rewrite Hx. simpl. run_M. done.
Qed.

(** X4. When the resolved executable does not exist, a start attempt
    throws the not-found error naming the path. Its only effect is the
    failure status: nothing is spawned and no restart is scheduled; the
    allocated port stays recorded in [this.port]. *)
Theorem start_without_executable e r p :
  starting (this r) = false → ready (this r) = false →
  availablePort e = inl p →
  existsSync e (pythonPath (pythonCommand e p)) = false →
  let err := MkError ("Python executable not found at: "
                      +:+ pythonPath (pythonCommand e p)) in
  let out := start e r in
  completion_of out = Throw err ∧
  effects_of out = [Emit (Emit_status (failure_status err))] ∧
  children (state_of out) = children r ∧
  process (bridge_of out) = process (this r) ∧
  port (bridge_of out) = p ∧
  retryCount (bridge_of out) = retryCount (this r).
Proof.
  intros Hs Hr Hp Hx err out. subst err out.
  rewrite (start_not_found e r p) by done. by destruct r as [[] ? ?].
Qed.

Lemma start_without_executable_witness :
  let e := {|
    is_dev := false; win32 := false; appPath := "/app";
    resourcesPath := "/res"; env_PATH := None; process_env := [];
    existsSync := λ _, false; statSync_size := λ _, 0;
    availablePort := inl 51000; probes := λ _, healthy |} in
  starting (this fresh) = false ∧ ready (this fresh) = false ∧
  availablePort e = inl 51000 ∧
  existsSync e (pythonPath (pythonCommand e 51000)) = false ∧
  completion_of (start e fresh)
    = Throw (MkError
        "Python executable not found at: /res/python/yt-helper-backend").
Proof.
  split_and!; [reflexivity..|].
  match goal with
  | |- completion_of (start ?e _) = _ =>
      exact (proj1 (start_without_executable e fresh 51000
                      eq_refl eq_refl eq_refl eq_refl))
  end.
Defined.

(** X5. In development mode without a virtual environment the command
    falls back to the bare name [python3] ([python] on Windows), and the
    existence check of [start] is made on that bare name: unless a file
    of that name exists where [existsSync] looks, the start attempt
    fails with the not-found error and spawns nothing, whether or not
    the system has a Python on its search path. *)
Theorem dev_fallback_needs_local_file e r p :
  starting (this r) = false → ready (this r) = false →
  availablePort e = inl p → is_dev e = true →
  existsSync e (venvPython e) = false →
  existsSync e (systemPython e) = false →
  let out := start e r in
  pythonPath (pythonCommand e p) = systemPython e ∧
  completion_of out
    = Throw (MkError ("Python executable not found at: " +:+ systemPython e)) ∧
  spawns (effects_of out) = [].
Proof.
  intros Hs Hr Hp Hd Hv Hx out.
  assert (pythonPath (pythonCommand e p) = systemPython e) as Hname.
  { unfold pythonCommand, venvPython, systemPython in *. rewrite Hd.
    cbv zeta. destruct (win32 e); rewrite Hv; reflexivity. }
  subst out. rewrite (start_not_found e r p) by (by rewrite ?Hname).
  by rewrite Hname.
Qed.

Lemma dev_fallback_needs_local_file_witness :
  let e := {|
    is_dev := true; win32 := false; appPath := "/app";
    resourcesPath := "/res"; env_PATH := Some "/usr/bin"; process_env := [];
    existsSync := λ _, false; statSync_size := λ _, 0;
    availablePort := inl 51000; probes := λ _, healthy |} in
  starting (this fresh) = false ∧ ready (this fresh) = false ∧
  availablePort e = inl 51000 ∧ is_dev e = true ∧
  existsSync e (venvPython e) = false ∧
  existsSync e (systemPython e) = false ∧
  completion_of (start e fresh)
    = Throw (MkError "Python executable not found at: python3").
Proof.
  split_and!; [reflexivity..|].
  match goal with
  | |- completion_of (start ?e _) = _ =>
      exact (proj1 (proj2 (dev_fallback_needs_local_file e fresh 51000
               eq_refl eq_refl eq_refl eq_refl eq_refl eq_refl)))
  end.
Defined.

(** ** What [stop] does before it ends the process *)

Lemma fetches_app es1 es2 : fetches (es1 ++ es2) = fetches es1 ++ fetches es2.
Proof. apply omap_app. Qed.

Lemma fetches_fmap_Fetch (qs : list Request) : fetches (Fetch <$> qs) = qs.
Proof. induction qs as [|q qs IH]; simpl; [done|]. by f_equal. Qed.

Lemma fetches_interval_cleared b : fetches (interval_cleared b) = [].
Proof. unfold interval_cleared. by destruct (pollInterval b). Qed.

Lemma stop_finish_frame promise r :
  let out := stop_finish promise r in
  completion_of out = Normal tt ∧
  this (state_of out) = set_activeDownloads [] (this r) ∧
  promises (state_of out) = promises r ∧
  length (children (state_of out)) = length (children r) ∧
  fetches (effects_of out) = [].
Proof.
  destruct r as [b cs n]. unfold stop_finish, kill. run_M. simpl.
  destruct (process b) as [proc|] eqn:Hpb; run_M; simpl;
    [ rewrite list_lookup_alter_eq; destruct (cs !! proc) as [c|]; simpl;
      [destruct (alive _)|]; run_M; simpl |];
    rewrite ?length_alter; done.
Qed.

Lemma stop_loop_run promise position r :
  stop_loop promise position r =
    match activeDownloads (this r) !! position with
    | Some d =>
        (Normal (Some {| stop_promise := promise; stop_job := d;
                         stop_position := S position |}),
         r, [Fetch (cancel_request (this r) d)])
    | None =>
        (Normal None, state_of (stop_finish promise r),
         effects_of (stop_finish promise r))
    end.
Proof.
  destruct (stop_finish_frame promise r) as (Hc & _).
  unfold stop_loop, completion_of, state_of, effects_of in *. run_M.
  destruct (activeDownloads (this r) !! position); run_M; [done|].
  destruct (stop_finish promise r) as [[c r1] e1]. simpl in *. subst c.
  by rewrite app_nil_r.
Qed.

Lemma stop_run r :
  stop r =
    let out := stop_loop (promises r) 0 (stop_entered r) in
    (match completion_of out with
     | Normal suspended => Normal (promises r, suspended)
     | Throw err => Throw err
     end,
     state_of out, interval_cleared (this r) ++ effects_of out).
Proof.
  destruct r as [b cs n]. destruct b as [? ? ? ? ? ? ? ? ? timer ?].
  unfold stop, stopPolling, stop_entered, interval_cleared, completion_of,
    state_of, effects_of. run_M. simpl.
  destruct timer; run_M; simpl;
    destruct (stop_loop n 0 _) as [[[suspended|err] r1] e1]; simpl;
    by rewrite ?app_nil_r.
Qed.

Lemma stop_resumed_run call answer r :
  stop_resumed call answer r
    = stop_loop (stop_promise call) (stop_position call) r.
Proof.
  unfold stop_resumed. run_M.
  destruct answer; run_M;
    by destruct (stop_loop _ _ r) as [[[suspended|err] r1] e1].
Qed.

(** The loop of [stop] when every request settles with nothing in
    between: the remaining jobs in turn, then the end of the method. *)
Lemma settle_all_run answers promise fuel position r :
  (length (activeDownloads (this r)) ≤ position + fuel)%nat →
  (stop_loop promise position ≫= settle_all answers fuel) r =
    (Normal tt, state_of (stop_finish promise r),
     (Fetch <$> (cancel_request (this r)
                   <$> drop position (activeDownloads (this r))))
     ++ effects_of (stop_finish promise r)).
Proof.
  revert position. induction fuel as [|fuel IH]; intros position Hlen;
    rewrite bind_unfold, stop_loop_run;
    destruct (activeDownloads (this r) !! position) as [d|] eqn:Hd.
  - apply lookup_lt_Some in Hd. lia.
  - rewrite drop_ge by (by apply lookup_ge_None). simpl.
    by rewrite app_nil_r.
  - match goal with |- context [settle_all answers (S fuel) (Some ?call) r] =>
      assert (settle_all answers (S fuel) (Some call) r
              = (stop_loop promise (S position) ≫= settle_all answers fuel) r)
        as -> by (cbn [settle_all]; by rewrite !bind_unfold, stop_resumed_run)
    end.
    rewrite IH by lia. rewrite (drop_S _ _ _ Hd). done.
  - rewrite drop_ge by (by apply lookup_ge_None). simpl.
    by rewrite app_nil_r.
Qed.

Lemma stop_alone_run answers r :
  stop_alone answers r =
    (Normal (promises r),
     state_of (stop_finish (promises r) (stop_entered r)),
     interval_cleared (this r)
     ++ (Fetch <$> (cancel_request (this r) <$> activeDownloads (this r)))
     ++ effects_of (stop_finish (promises r) (stop_entered r))).
Proof.
  pose proof (settle_all_run answers (promises r)
    (length (activeDownloads (this r))) 0 (stop_entered r)) as Hrun.
  rewrite bind_unfold in Hrun.
  unfold stop_alone. rewrite bind_unfold. unfold get_this at 1.
  cbn [fst snd app]. rewrite bind_unfold, stop_run. cbv zeta.
  unfold completion_of, state_of, effects_of in *.
  destruct (stop_loop (promises r) 0 (stop_entered r))
    as [[[suspended|err] r1] e1]; cbn [fst snd] in *.
  - rewrite bind_unfold.
    destruct (settle_all answers _ suspended r1) as [[c2 r2] e2].
    assert (activeDownloads (this (stop_entered r)) = activeDownloads (this r))
      as Hids by (by destruct r as [[] ? ?]).
    assert (cancel_request (this (stop_entered r)) = cancel_request (this r))
      as Hreq by (by destruct r as [[] ? ?]).
    rewrite Hids, Hreq in Hrun. cbn [drop Nat.add] in Hrun.
    specialize (Hrun ltac:(lia)). simpl in Hrun.
    injection Hrun as Hc Hr He. subst c2 r2. run_M. simpl.
    by rewrite app_nil_r, <- app_assoc, He.
  - assert (activeDownloads (this (stop_entered r)) = activeDownloads (this r))
      as Hids by (by destruct r as [[] ? ?]).
    rewrite Hids in Hrun. by specialize (Hrun ltac:(lia)).
Qed.

Lemma stop_shape answers r :
  ∃ tail,
    effects_of (stop_alone answers r) =
      interval_cleared (this r)
      ++ (Fetch <$> (cancel_request (this r) <$> activeDownloads (this r)))
      ++ tail ∧
    fetches tail = [] ∧
    activeDownloads (bridge_of (stop_alone answers r)) = [] ∧
    pollInterval (bridge_of (stop_alone answers r)) = None ∧
    ready (bridge_of (stop_alone answers r)) = false ∧
    shouldRestart (bridge_of (stop_alone answers r)) = false ∧
    retryCount (bridge_of (stop_alone answers r)) = 0.
Proof.
  rewrite stop_alone_run.
  destruct (stop_finish_frame (promises r) (stop_entered r))
    as (_ & Ht & _ & _ & Hf).
  unfold bridge_of, state_of, effects_of in *. cbn [fst snd].
  eexists. split; [reflexivity|]. rewrite Ht.
  destruct r as [[] ? ?]. by repeat split.
Qed.

(** X6. [stop], with nothing else running while its requests are
    awaited, sends one cancel request per tracked job, in the order the
    jobs were added, and nothing else over HTTP; whatever the answers, it
    leaves the tracked set empty, the poll loop stopped, the supervisor
    not ready, auto-restart off and the failure counter at zero. The
    answers to the cancel requests change nothing. *)
Theorem stop_cancels_tracked answers r :
  let out := stop_alone answers r in
  fetches (effects_of out)
    = cancel_request (this r) <$> activeDownloads (this r) ∧
  activeDownloads (bridge_of out) = [] ∧
  pollInterval (bridge_of out) = None ∧
  ready (bridge_of out) = false ∧
  shouldRestart (bridge_of out) = false ∧
  retryCount (bridge_of out) = 0 ∧
  ∀ answers', stop_alone answers' r = out.
Proof.
  intros out. subst out.
  destruct (stop_shape answers r) as (tail & He & Ht & H).
  split_and!; try apply H.
  - rewrite He, !fetches_app, fetches_interval_cleared, Ht,
      fetches_fmap_Fetch, app_nil_r. done.
  - intros answers'. by rewrite !stop_alone_run.
Qed.

(** ** The poll callback when the listing does not arrive *)

(** X7. The poll callback never throws. When the supervisor is not ready
    or tracks no job it does nothing at all, not even a request. When it
    runs and the request fails, is answered with an error status, or
    carries a body that is not JSON, the callback has sent its one
    request and changed nothing: no event, no job untracked. *)
Theorem pollTick_failure_is_silent answer cleared r :
  let out := pollTick answer cleared r in
  completion_of out = Normal tt ∧
  (if ready (this r)
      && negb (bool_decide (JsSet.size (activeDownloads (this r)) = 0))
   then match answer with
        | Poll_listing _ => True
        | _ => state_of out = r ∧
               effects_of out = [Fetch (progress_request (this r))]
        end
   else out = (Normal tt, r, [])).
Proof.
  intros out. subst out. unfold pollTick. run_M.
  destruct (ready (this r)); [|done]. case_bool_decide; [done|].
  simpl. run_M. destruct answer as [err| |err|l]; simpl; try done.
  destruct (for_each_handle_progress cleared l r) as (H1 & _).
  unfold completion_of in *.
  destruct (for_each l (handle_progress cleared) r) as [[c r1] e1].
  simpl in *. by subst c.
Qed.

(** ** The IPC handlers of the main process *)

(** X8. The IPC handlers test [isReady] before they call the bridge. So
    while the supervisor is not ready the renderer gets the handler's own
    error ("Backend is starting up. Please wait..." for video info and
    for starting a download, "Backend is not available" for cancelling)
    with nothing sent and nothing changed, and never the bridge's
    not-ready error; once it is ready each handler is the bridge method
    itself. *)
Theorem ipc_handlers_guard r :
  if ready (this r) then
    (∀ u answer, handle_GET_VIDEO_INFO u answer r = getVideoInfo u answer r) ∧
    (∀ o answer, handle_START_DOWNLOAD o answer r = startDownload o answer r) ∧
    (∀ d answer, handle_CANCEL_DOWNLOAD d answer r = cancelDownload d answer r)
  else
    (∀ u answer, handle_GET_VIDEO_INFO u answer r
       = (Throw (MkError "Backend is starting up. Please wait..."), r, [])) ∧
    (∀ o answer, handle_START_DOWNLOAD o answer r
       = (Throw (MkError "Backend is starting up. Please wait..."), r, [])) ∧
    (∀ d answer, handle_CANCEL_DOWNLOAD d answer r
       = (Throw (MkError "Backend is not available"), r, [])).
Proof.
  unfold handle_GET_VIDEO_INFO, handle_START_DOWNLOAD, handle_CANCEL_DOWNLOAD,
    isReady.
  destruct (ready (this r)) eqn:Hr; split_and!; intros; run_M; rewrite Hr;
    simpl; try done;
    match goal with
    | |- (let (_, _) := ?m in _) = _ => by destruct m as [[? ?] ?]
    end.
Qed.

(** ** [stop] called twice, and [start] called after [stop] *)



Lemma restarts_app es1 es2 :
  restarts (es1 ++ es2) = restarts es1 ++ restarts es2.
Proof. apply omap_app. Qed.



Lemma stop_entered_fields r :
  activeDownloads (this (stop_entered r)) = activeDownloads (this r) ∧
  cancel_request (this (stop_entered r)) = cancel_request (this r) ∧
  process (this (stop_entered r)) = process (this r) ∧
  interval_cleared (this (stop_entered r)) = [] ∧
  shouldRestart (this (stop_entered r)) = false ∧
  ready (this (stop_entered r)) = false ∧
  starting (this (stop_entered r)) = starting (this r).
Proof. by destruct r as [[] ? ?]. Qed.





Lemma start_overwrites e r :
  starting (this r) = false → ready (this r) = false →
  start e r =
  start e {| this := set_shouldRestart true (this r); children := children r;
             promises := promises r |}.
Proof.
  intros Hs Hr. destruct r as [b cs n].
  destruct b as [? ? ? ? ? ? ? ? ? ? ?]. simpl in *. subst.
  unfold start. run_M. reflexivity.
Qed.

Lemma start_turns_restart_on e r :
  starting (this r) = false → ready (this r) = false →
  shouldRestart (bridge_of (start e r)) = true ∧
  maxRetries (bridge_of (start e r)) = maxRetries (this r).
Proof.
  intros Hs Hr. rewrite start_overwrites by done.
  destruct (start_policy (maxRetries (this r)) e
    {| this := set_shouldRestart true (this r); children := children r;
       promises := promises r |}) as [[H1 H2] _]; [by split|].
  by split.
Qed.

Lemma start_spawns e r p :
  starting (this r) = false → ready (this r) = false →
  availablePort e = inl p →
  existsSync e (pythonPath (pythonCommand e p)) = true →
  is_dev e = true
    ∨ MIN_EXE_SIZE ≤ statSync_size e (pythonPath (pythonCommand e p)) →
  ∃ rest, effects_of (start e r) =
    Spawn (pythonPath (pythonCommand e p)) (args (pythonCommand e p))
      (process_env e ++ env (pythonCommand e p) ++ [("PYTHONUNBUFFERED", "1")])
    :: rest.
Proof.
  intros Hs Hr Hp Hx Hsize. destruct r as [b cs n]. simpl in Hs, Hr.
  unfold effects_of.
  unfold start, findAvailablePort, getPythonCommand, spawn. run_M.
  rewrite Hs, Hr, Hp. simpl. run_M. simpl. rewrite Hx. simpl. run_M.
  destruct (is_dev e); simpl; run_M.
  - destruct (waitForServer _ _ _ _) as [[[[]|?] ?] ?]; simpl; eauto.
  - destruct Hsize as [?|Hsize]; [done|].
    rewrite bool_decide_eq_false_2 by lia. run_M.
    destruct (waitForServer _ _ _ _) as [[[[]|?] ?] ?]; simpl; eauto.
Qed.

Ltac halted_leaf :=
  try solve [exact I | done | unfold halted in *; simpl in *; tauto].

Lemma onExit_halted code signal :
  preserves halted any_effect (onExit code signal).
Proof.
  intros r (Hs & Hr & Ht). rewrite onExit_quiet by (by rewrite Hs).
  split; [done|]. by apply Forall_true.
Qed.

Lemma request_halted {T} endpoint options (answer : FetchAnswer T) :
  preserves halted any_effect (request endpoint options answer).
Proof. unfold request. preserves_auto; halted_leaf. Qed.

Lemma stop_loop_halted promise position :
  preserves halted any_effect (stop_loop promise position).
Proof. unfold stop_loop, stop_finish, kill. preserves_auto; halted_leaf. Qed.

Lemma step_halted i : no_start i → preserves halted any_effect (step i).
Proof.
  destruct i as [| | | | |proc' [| | |]| | | |]; simpl; try done; intros _;
    unfold settle, stop, stop_resumed, stopPolling, forceKill, kill,
      getVideoInfo, startDownload, startPolling, cancelDownload,
      pollTick, handle_progress, delete_active, clearDownload,
      shutdownTimeout, onProcessEvent, onExit_stop,
      onStdout, onStderr, onError, push_output;
    preserves_auto; halted_leaf;
    first [ apply request_halted | apply onExit_halted
          | apply stop_loop_halted ].
Qed.

Lemma run_halted inputs :
  Forall no_start inputs → preserves halted any_effect (run inputs).
Proof.
  intros Hin. unfold run.
  induction Hin as [|i inputs Hi _ IH]; cbn [for_each].
  - apply preserves_ret.
  - apply preserves_bind; [by apply step_halted|intros _; apply IH].
Qed.

Lemma stop_halts r : starting (this r) = false → halted (state_of (stop r)).
Proof.
  intros Hs. rewrite stop_run. cbv zeta. unfold state_of at 1. cbn [fst snd].
  apply stop_loop_halted.
  destruct (stop_entered_fields r) as (_ & _ & _ & _ & H1 & H2 & H3).
  split_and!; [done|done|by rewrite H3].
Qed.

(** X10. [stop] turns auto-restart off, but it does not stand in the way
    of a later [start], such as the one a restart timer set before the
    [stop] will still run. Provided no start attempt is under way when
    [stop] is called, then whatever comes after the call short of a
    [start] (the settling of its cancel requests, events of the worker,
    timers, calls of the host), a [start] is not a no-op: it turns
    auto-restart back on and, with a port, an executable and a
    plausible size, spawns a worker. *)
Theorem start_after_stop e r p inputs :
  starting (this r) = false →
  availablePort e = inl p →
  existsSync e (pythonPath (pythonCommand e p)) = true →
  is_dev e = true
    ∨ MIN_EXE_SIZE ≤ statSync_size e (pythonPath (pythonCommand e p)) →
  Forall no_start inputs →
  let stopped := state_of (run inputs (state_of (stop r))) in
  let out := start e stopped in
  shouldRestart (this stopped) = false ∧
  shouldRestart (bridge_of out) = true ∧
  spawns (effects_of out) ≠ [].
Proof.
  intros Hs Hp Hx Hsize Hin stopped out.
  destruct (run_halted inputs Hin _ (stop_halts r Hs)) as [(Hsr & Hr & Hst) _].
  fold stopped in Hsr, Hr, Hst.
  split_and!; [done|by apply start_turns_restart_on|].
  destruct (start_spawns e stopped p Hst Hr Hp Hx Hsize) as [rest He].
  subst out. by rewrite He.
Qed.

Lemma start_after_stop_witness :
  let e := packaged 20000000 (λ _, healthy) in
  let inputs := [Cancel_settled awaiting_a (Plain_response true)] in
  let stopped := state_of (run inputs (state_of (stop busy))) in
  starting (this busy) = false ∧ availablePort e = inl 51000 ∧
  existsSync e (pythonPath (pythonCommand e 51000)) = true ∧
  MIN_EXE_SIZE ≤ statSync_size e (pythonPath (pythonCommand e 51000)) ∧
  Forall no_start inputs ∧
  shouldRestart (this stopped) = false ∧
  shouldRestart (bridge_of (start e stopped)) = true.
Proof.
  assert (MIN_EXE_SIZE ≤ 20000000) as Hsize by (unfold MIN_EXE_SIZE; lia).
  assert (Forall no_start [Cancel_settled awaiting_a (Plain_response true)])
    as Hin by (by repeat constructor).
  pose proof (start_after_stop (packaged 20000000 (λ _, healthy)) busy 51000
    [Cancel_settled awaiting_a (Plain_response true)]
    eq_refl eq_refl eq_refl (or_intror Hsize) Hin) as H.
  cbv zeta in *.
  split_and!; [reflexivity..|exact Hsize|exact Hin|apply H|apply H].
Defined.

(** ** The force-kill timer *)

Lemma signalled_kept proc f proc' b cs n :
  (∀ c, killed c = true ∨ alive c = false →
        killed (f c) = true ∨ alive (f c) = false) →
  signalled proc {| this := b; children := cs; promises := n |} →
  signalled proc {| this := b; children := alter f proc' cs; promises := n |}.
Proof.
  intros Hf (c & Hc & Hk). unfold signalled. simpl in *.
  destruct (decide (proc' = proc)) as [->|Hne].
  - rewrite list_lookup_alter_eq, Hc. simpl. eauto.
  - rewrite list_lookup_alter_ne by done. eauto.
Qed.

Ltac signalled_leaf :=
  try solve [ exact I | done | apply signalled_kept; intros; by left ].

Lemma kill_signalled proc proc' sig :
  preserves (signalled proc) any_effect (kill proc' sig).
Proof.
  unfold kill. preserves_auto; signalled_leaf.
Qed.

Lemma request_signalled {T} proc endpoint options (answer : FetchAnswer T) :
  preserves (signalled proc) any_effect (request endpoint options answer).
Proof. unfold request. preserves_auto; signalled_leaf. Qed.

Lemma step_signalled proc i :
  shutdown_noise i → preserves (signalled proc) any_effect (step i).
Proof.
  destruct i as [| | | | |proc' [| | |]| | | |]; simpl; try done; intros _;
    unfold settle, getVideoInfo, startDownload, startPolling, cancelDownload,
      delete_active, pollTick, handle_progress, clearDownload, forceKill,
      onStdout, onStderr, onError, push_output;
    preserves_auto; signalled_leaf;
    first [apply request_signalled | apply kill_signalled].
Qed.

Lemma run_signalled proc noise :
  Forall shutdown_noise noise →
  preserves (signalled proc) any_effect (run noise).
Proof.
  intros Hnoise. unfold run.
  induction Hnoise as [|i noise Hi _ IH]; cbn [for_each].
  - apply preserves_ret.
  - apply preserves_bind; [by apply step_signalled|intros _; apply IH].
Qed.

Lemma stop_finish_signals promise r proc :
  process (this r) = Some proc → is_Some (children r !! proc) →
  signalled proc (state_of (stop_finish promise r)).
Proof.
  intros Hp [c Hc]. destruct r as [b cs n]. simpl in *.
  unfold signalled, state_of, stop_finish, kill. run_M. simpl.
  rewrite Hp; run_M; simpl;
    rewrite list_lookup_alter_eq, Hc; simpl;
    destruct (alive _) eqn:Ha; run_M; simpl;
    rewrite ?list_lookup_alter_eq, ?Hc; simpl; eauto.
Qed.

(** X11. The force-kill timer of [stop] never sends SIGKILL. Where a
    call of [stop] comes to the end of its loop with a process in place,
    it sends SIGTERM first, and Node sets [killed] on a child as soon as
    a signal has been delivered to it; the timer's callback escalates
    only when [killed] is still false, which then means the child had
    already ended, and a child that has ended takes no signal. So a
    worker that ignores SIGTERM gets no SIGKILL from this timer: when it
    fires, it sends nothing and changes nothing. This holds in
    particular for a call of [stop] whose requests settle with nothing
    in between. *)
Theorem force_kill_never_escalates promise answers r proc noise :
  handle_valid r → process (this r) = Some proc →
  Forall shutdown_noise noise →
  (let finishing := stop_finish promise r in
   let fired := forceKill proc (state_of (run noise (state_of finishing))) in
   SetTimeout (Cb_forceKill proc) 3000 ∈ effects_of finishing ∧
   effects_of fired = [] ∧
   state_of fired = state_of (run noise (state_of finishing))) ∧
  (let stopping := stop_alone answers r in
   let fired := forceKill proc (state_of (run noise (state_of stopping))) in
   SetTimeout (Cb_forceKill proc) 3000 ∈ effects_of stopping ∧
   effects_of fired = [] ∧
   state_of fired = state_of (run noise (state_of stopping))).
Proof.
  intros Hvalid Hproc Hnoise.
  assert (∀ p r0, handle_valid r0 → process (this r0) = Some proc →
    let finishing := stop_finish p r0 in
    let fired := forceKill proc (state_of (run noise (state_of finishing))) in
    SetTimeout (Cb_forceKill proc) 3000 ∈ effects_of finishing ∧
    effects_of fired = [] ∧
    state_of fired = state_of (run noise (state_of finishing))) as Hgeneral.
  { intros p r0 Hv Hp finishing fired.
    destruct (stop_finish_with_process p r0 proc Hp) as (_ & _ & H3 & _).
    split; [done|].
    pose proof (stop_finish_signals p r0 proc Hp (Hv proc Hp)) as Hs.
    destruct (run_signalled proc noise Hnoise _ Hs) as [(c & Hc & Hk) _].
    subst fired. fold finishing in Hc.
    generalize dependent (state_of (run noise (state_of finishing))).
    intros r' Hc. unfold forceKill, kill. run_M. rewrite Hc.
    destruct (killed c) eqn:Hkilled; simpl; [done|].
    destruct Hk as [?|Ha]; [done|]. run_M. by rewrite Hc, Ha. }
  split; [by apply Hgeneral|].
  destruct (stop_entered_fields r) as (_ & _ & Hpr & _).
  destruct (Hgeneral (promises r) (stop_entered r))
    as (H1 & H2 & H3); [done|by rewrite Hpr|].
  rewrite stop_alone_run. cbv zeta in *.
  unfold state_of at 2 4, effects_of at 1. cbn [fst snd].
  split_and!; [|done|done].
  rewrite !elem_of_app. auto.
Qed.

Lemma force_kill_never_escalates_witness :
  handle_valid busy ∧ process (this busy) = Some 0%nat ∧
  Forall shutdown_noise [Process_event 0 (Stdout "still here")] ∧
  effects_of (forceKill 0 (state_of (run [Process_event 0 (Stdout "still here")]
     (state_of (stop_alone (λ _, Plain_response true) busy))))) = [].
Proof.
  assert (handle_valid busy) as Hvalid by apply handle_valid_run.
  assert (Forall shutdown_noise [Process_event 0 (Stdout "still here")])
    as Hnoise by (repeat constructor).
  split_and!; [exact Hvalid|reflexivity|exact Hnoise|].
  exact (proj1 (proj2 (proj2 (force_kill_never_escalates 0
    (λ _, Plain_response true) busy 0 _ Hvalid eq_refl Hnoise)))).
Defined.

(** ** The readiness loop *)

Lemma probe_true e i r :
  completion_of (probe e i r) = Normal true →
  health (probes e i) = Plain_response true.
Proof.
  unfold probe, completion_of. run_M.
  destruct (deliver (during_fetch (probes e i)) r) as [[[[]|err] r1] e1];
    run_M; simpl; [|done].
  destruct (health (probes e i)) as [err|[]]; run_M; simpl; done.
Qed.

Lemma waitForServer_returns e maxAttempts intervalMs remaining i r :
  completion_of (waitForServer_from e maxAttempts intervalMs remaining i r)
    = Normal tt →
  ∃ k, (i ≤ k < i + remaining)%nat ∧ health (probes e k) = Plain_response true.
Proof.
  revert i r. induction remaining as [|n IH]; intros i r; simpl; [done|].
  rewrite bind_unfold.
  destruct (process_state r) as [[[[gone text]|err] r1] e1]; [|done].
  unfold completion_of at 1. cbn [fst]. run_M.
  destruct gone; [done|].
  pose proof (probe_true e i r1) as Hp. unfold completion_of in Hp.
  destruct (probe e i r1) as [[[[]|err] r2] e2]; cbn [fst] in *; [| |done].
  - intros _. exists i. split; [lia|by apply Hp].
  - destruct (deliver (during_sleep (probes e i)) r2) as [[[[]|err] r3] e3];
      [|done].
    intros H. destruct (IH (S i) r3) as (k & Hk & Hh).
    { unfold completion_of.
      by destruct (waitForServer_from e maxAttempts intervalMs n (S i) r3)
        as [[[[]|?] ?] ?]. }
    exists k. split; [lia|done].
Qed.

(** X12. The supervisor is ready only after the health endpoint has
    answered with success: a start attempt that takes it from not ready
    to ready has had a successful answer to one of its at most 60
    probes. *)
Theorem ready_needs_health e r :
  ready (this r) = false → ready (bridge_of (start e r)) = true →
  ∃ k, (k < 60)%nat ∧ health (probes e k) = Plain_response true.
Proof.
  intros Hr. destruct r as [b cs n]. simpl in Hr.
  unfold bridge_of, state_of.
  destruct (starting b) eqn:Hs.
  { unfold start. run_M. rewrite Hs. simpl. congruence. }
  start_cases e; rewrite ?Hs, ?Hr; start_cases e; simpl; try done; intros _;
    match goal with
    | H : waitForServer e 60 500 ?r' = (Normal (), _, _) |- _ =>
        destruct (waitForServer_returns e 60 500 60 0 r') as (k & Hk & Hh);
        [unfold waitForServer in H; by rewrite H|exists k; split; [lia|done]]
    end.
Qed.

Lemma ready_needs_health_witness :
  ready (this fresh) = false ∧
  ready (bridge_of (start (packaged 20000000 (λ _, healthy)) fresh)) = true ∧
  ∃ k, (k < 60)%nat ∧
       health (probes (packaged 20000000 (λ _, healthy)) k) = Plain_response true.
Proof.
  split_and!; [reflexivity|reflexivity|].
  exact (ready_needs_health (packaged 20000000 (λ _, healthy)) fresh
           eq_refl eq_refl).
Defined.

(** ** A start attempt, from the spawn on *)

Lemma start_launches e r p :
  starting (this r) = false → ready (this r) = false →
  availablePort e = inl p →
  existsSync e (pythonPath (pythonCommand e p)) = true →
  is_dev e = true
    ∨ MIN_EXE_SIZE ≤ statSync_size e (pythonPath (pythonCommand e p)) →
  start e r =
    let waited := waitForServer e 60 500 (launched p r) in
    match completion_of waited with
    | Normal _ =>
        (Normal tt, made_ready (state_of waited),
         spawned e (pythonCommand e p) :: effects_of waited
           ++ [Emit (Emit_status ready_status)])
    | Throw err =>
        (Throw err, made_failed err (state_of waited),
         spawned e (pythonCommand e p) :: effects_of waited
           ++ [Emit (Emit_status (failure_status err))])
    end.
Proof.
  intros Hs Hr Hp Hx Hsize. destruct r as [b cs n]. simpl in Hs, Hr.
  assert ((if negb (is_dev e)
           then if bool_decide
                     (statSync_size e (pythonPath (pythonCommand e p))
                      < MIN_EXE_SIZE)
                then true else false
           else false) = false) as Hcheck.
  { destruct Hsize as [->|Hge]; [done|].
    rewrite bool_decide_eq_false_2 by lia. by destruct (is_dev e). }
  unfold start, findAvailablePort, getPythonCommand, spawn. run_M.
  rewrite Hs, Hr, Hp. simpl. run_M. simpl. rewrite Hx. simpl. run_M.
  unfold launched, made_ready, made_failed, spawned, completion_of, state_of,
    effects_of. simpl.
  destruct (negb (is_dev e)); [case_bool_decide; [done|]|]; run_M;
    destruct (waitForServer _ _ _ _) as [[[[]|err] [b1 cs1 n1]] e1];
    run_M; simpl; reflexivity.
Qed.

Lemma launched_probing p r : probing (launched p r).
Proof.
  exists (length (children r)), new_child. simpl.
  split_and!; [done|by apply list_lookup_middle|done|done].
Qed.

Lemma for_each_app {A} (l1 l2 : list A) (f : A → M unit) r :
  for_each (l1 ++ l2) f r =
    let out := for_each l1 f r in
    match completion_of out with
    | Normal _ =>
        let out' := for_each l2 f (state_of out) in
        (completion_of out', state_of out', effects_of out ++ effects_of out')
    | Throw err => (Throw err, state_of out, effects_of out)
    end.
Proof.
  revert r. induction l1 as [|x l1 IH]; intros r.
  - simpl. run_M. by destruct (for_each l2 f r) as [[? ?] ?].
  - cbn [app for_each]. rewrite !bind_unfold.
    destruct (f x r) as [[[[]|err] r1] e1]; [|done].
    cbn [fst snd]. rewrite IH. unfold completion_of, state_of, effects_of.
    destruct (for_each l1 f r1) as [[[[]|err] r2] e2]; cbn [fst snd].
    + destruct (for_each l2 f r2) as [[? ?] ?]. cbn [fst snd].
      by rewrite app_assoc.
    + done.
Qed.

Lemma diagnostics_only_url r r' :
  diagnostics_only r r' → health_request (this r') = health_request (this r).
Proof.
  intros (_ & _ & ->). by destruct r as [[] ? ?].
Qed.

Lemma succeeded_false a : a ≠ Plain_response true → succeeded a = false.
Proof. by destruct a as [|[]]. Qed.

(** One round in which the child only writes output while the health
    request is awaited. *)
Lemma probe_output e i r :
  Forall is_output (during_fetch (probes e i)) →
  ∃ r', diagnostics_only r r' ∧
    probe e i r =
      (Normal (succeeded (health (probes e i))), r',
       [Fetch (health_request (this r))]).
Proof.
  intros Hev. destruct (deliver_output _ r Hev) as (H1 & H2 & H3).
  unfold completion_of, effects_of, state_of in *.
  unfold probe, health_request. run_M.
  destruct (deliver (during_fetch (probes e i)) r) as [[c r1] e1].
  simpl in *. subst c e1. exists r1. split; [done|].
  destruct (health (probes e i)) as [err|[]]; run_M; simpl; done.
Qed.

Lemma waitForServer_rounds e maxAttempts intervalMs k n i r :
  probing r →
  (∀ j, (j < k)%nat → quiet_round (probes e (i + j))) →
  ∃ r', probing r' ∧ diagnostics_only r r' ∧
    waitForServer_from e maxAttempts intervalMs (k + n) i r =
      let out := waitForServer_from e maxAttempts intervalMs n (i + k) r' in
      (completion_of out, state_of out,
       replicate k (Fetch (health_request (this r))) ++ effects_of out).
Proof.
  revert i r. induction k as [|k IH]; intros i r Hr Hq.
  - exists r. split_and!; [done|apply diagnostics_only_refl|].
    rewrite Nat.add_0_r. simpl.
    by destruct (waitForServer_from _ _ _ _ _ _) as [[? ?] ?].
  - destruct (Hq 0%nat) as (Hf & Hs & Hh); [lia|]. rewrite Nat.add_0_r in *.
    destruct (probe_output e i r Hf) as (r1 & Hd1 & Hp).
    destruct (deliver_output _ r1 Hs) as (H4 & H5 & H6).
    set (r2 := state_of (deliver (during_sleep (probes e i)) r1)) in *.
    assert (diagnostics_only r r2) as Hd2
      by (eapply diagnostics_only_trans; done).
    destruct (IH (S i) r2) as (r' & Hr' & Hd' & Hw).
    { by eapply probing_diagnostics_only. }
    { intros j Hj. replace (S i + j)%nat with (i + S j)%nat by lia.
      apply Hq. lia. }
    exists r'. split_and!; [done|by eapply diagnostics_only_trans|].
    cbn [Nat.add waitForServer_from].
    rewrite bind_unfold, process_state_probing by done.
    cbn [fst snd]. run_M. rewrite Hp. cbn [fst snd].
    rewrite (succeeded_false _ Hh).
    unfold completion_of, state_of, effects_of in H4, H5, r2.
    destruct (deliver (during_sleep (probes e i)) r1) as [[c r2'] e2].
    simpl in H4, H5, r2. subst c e2 r2. cbn [fst snd].
    rewrite Hw. rewrite (diagnostics_only_url _ _ Hd2).
    replace (S i + k)%nat with (i + S k)%nat by lia.
    unfold completion_of, state_of, effects_of.
    by destruct (waitForServer_from _ _ _ _ _ r') as [[[[]|?] ?] ?].
Qed.

Lemma waitForServer_late e maxAttempts intervalMs k n i r :
  probing r →
  (∀ j, (j < k)%nat → quiet_round (probes e (i + j))) →
  Forall is_output (during_fetch (probes e (i + k))) →
  health (probes e (i + k)) = Plain_response true →
  ∃ r', diagnostics_only r r' ∧
    waitForServer_from e maxAttempts intervalMs (k + S n) i r =
      (Normal tt, r', replicate (S k) (Fetch (health_request (this r)))).
Proof.
  intros Hr Hq Hf Hh.
  destruct (waitForServer_rounds e maxAttempts intervalMs k (S n) i r Hr Hq)
    as (r1 & Hr1 & Hd1 & ->).
  destruct (probe_output e (i + k) r1 Hf) as (r2 & Hd2 & Hpr).
  exists r2. split; [by eapply diagnostics_only_trans|].
  cbn [waitForServer_from].
  rewrite bind_unfold, process_state_probing by done.
  cbn [fst snd]. run_M. rewrite Hpr. cbn [fst snd]. rewrite Hh. simpl.
  rewrite (diagnostics_only_url _ _ Hd1).
  f_equal. symmetry. apply replicate_S_end.
Qed.

Lemma fetches_replicate n q : fetches (replicate n (Fetch q)) = replicate n q.
Proof. induction n; simpl; [done|]. unfold fetches in *. simpl. by f_equal. Qed.

Lemma statuses_replicate n q : statuses (replicate n (Fetch q)) = [].
Proof. induction n; simpl; done. Qed.

Lemma restarts_replicate n q : restarts (replicate n (Fetch q)) = [].
Proof. induction n; simpl; done. Qed.

Lemma launched_url p r :
  health_request (this (launched p r)) = health_request (set_port p (this r)).
Proof. by destruct r as [[] ? ?]. Qed.

(** X13. A worker that becomes healthy late: it runs, writing at most
    output, through [k] probes without a successful health answer and
    answers probe number [k] (counted from 0, [k < 60]) with success.
    Then [start] returns with the supervisor ready and the failure
    counter at zero, after exactly [k + 1] health requests, all sent to
    the port allocated for this attempt; the one status event is the
    ready status and no restart is scheduled. *)
Theorem late_health e r p k :
  starting (this r) = false → ready (this r) = false →
  availablePort e = inl p →
  existsSync e (pythonPath (pythonCommand e p)) = true →
  is_dev e = true
    ∨ MIN_EXE_SIZE ≤ statSync_size e (pythonPath (pythonCommand e p)) →
  (k < 60)%nat →
  (∀ j, (j < k)%nat → quiet_round (probes e j)) →
  Forall is_output (during_fetch (probes e k)) →
  health (probes e k) = Plain_response true →
  let out := start e r in
  completion_of out = Normal tt ∧
  ready (bridge_of out) = true ∧ retryCount (bridge_of out) = 0 ∧
  fetches (effects_of out)
    = replicate (S k) (health_request (set_port p (this r))) ∧
  statuses (effects_of out) = [ready_status] ∧
  restarts (effects_of out) = [].
Proof.
  intros Hs Hr Hp Hx Hsize Hk Hq Hf Hh out. subst out.
  rewrite (start_launches e r p) by done.
  destruct (waitForServer_late e 60 500 k (59 - k) 0 (launched p r))
    as (r' & Hd' & Hw); [apply launched_probing|done..|].
  replace (k + S (59 - k))%nat with 60%nat in Hw by lia.
  unfold waitForServer. cbv zeta. rewrite Hw, launched_url.
  unfold completion_of, bridge_of, state_of, effects_of. cbn [fst snd].
  split_and!; [done..| | |].
  - change (fetches (?a :: ?l)) with (fetches l).
    by rewrite fetches_app, fetches_replicate, app_nil_r.
  - change (statuses (?a :: ?l)) with (statuses l).
    unfold statuses. rewrite omap_app. fold (statuses (replicate (S k)
      (Fetch (health_request (set_port p (this r)))))).
    by rewrite statuses_replicate.
  - change (restarts (?a :: ?l)) with (restarts l).
    by rewrite restarts_app, restarts_replicate.
Qed.

Lemma late_health_witness :
  let e := packaged 20000000
             (λ i, if bool_decide (i = 2%nat) then healthy else unresponsive) in
  starting (this fresh) = false ∧ ready (this fresh) = false ∧
  availablePort e = inl 51000 ∧
  existsSync e (pythonPath (pythonCommand e 51000)) = true ∧
  MIN_EXE_SIZE ≤ statSync_size e (pythonPath (pythonCommand e 51000)) ∧
  (2 < 60)%nat ∧
  (∀ j, (j < 2)%nat → quiet_round (probes e j)) ∧
  Forall is_output (during_fetch (probes e 2)) ∧
  health (probes e 2) = Plain_response true ∧
  completion_of (start e fresh) = Normal tt ∧
  length (fetches (effects_of (start e fresh))) = 3%nat.
Proof.
  assert (MIN_EXE_SIZE ≤ 20000000) as Hsize by (unfold MIN_EXE_SIZE; lia).
  assert (∀ j, (j < 2)%nat → quiet_round (probes (packaged 20000000
      (λ i, if bool_decide (i = 2%nat) then healthy else unresponsive)) j))
    as Hq.
  { intros j Hj. simpl. rewrite bool_decide_eq_false_2 by lia.
    split_and!; [constructor|constructor|done]. }
  pose proof (late_health (packaged 20000000
      (λ i, if bool_decide (i = 2%nat) then healthy else unresponsive))
    fresh 51000 2 eq_refl eq_refl eq_refl eq_refl (or_intror Hsize)
    ltac:(lia) Hq (Forall_nil_2 _) eq_refl) as H.
  cbv zeta in *.
  split_and!; [reflexivity|reflexivity|reflexivity|reflexivity|exact Hsize|lia
              |exact Hq|constructor|reflexivity|apply H|].
  destruct H as (_ & _ & _ & -> & _). reflexivity.
Defined.

(** ** The worker ends while [start] waits for it *)

Lemma onProcessEvent_exit proc code signal r c :
  children r !! proc = Some c → exitOnce c = [] →
  onProcessEvent proc (Exit code signal) r
    = onExit code signal (ended code signal proc r).
Proof.
  intros Hc Hx. destruct r as [b cs n]. simpl in Hc.
  unfold onProcessEvent, ended. run_M. rewrite Hc. simpl. rewrite Hx.
  destruct (onExit code signal _) as [[[[]|err] r1] e1]; simpl;
    by rewrite ?app_nil_r.
Qed.

Lemma onExit_returns code signal r :
  completion_of (onExit code signal r) = Normal tt.
Proof.
  destruct r as [b cs n]. destruct b as [? ? ? ? ? ? ? ? ? timer ?].
  unfold onExit, stopPolling, completion_of. run_M. simpl.
  destruct timer; run_M; simpl;
    destruct (_ && _); run_M; simpl; try case_bool_decide; done.
Qed.

Lemma deliver_one proc ev r :
  process (this r) = Some proc →
  deliver [ev] r = onProcessEvent proc ev r.
Proof.
  intros Hp. unfold deliver. cbn [for_each]. unfold get_this. run_M.
  rewrite Hp. destruct (onProcessEvent proc ev r) as [[[[]|?] ?] ?]; simpl;
    by rewrite ?app_nil_r.
Qed.

Lemma deliver_app evs1 evs2 r :
  deliver (evs1 ++ evs2) r =
    let out := deliver evs1 r in
    match completion_of out with
    | Normal _ =>
        let out' := deliver evs2 (state_of out) in
        (completion_of out', state_of out', effects_of out ++ effects_of out')
    | Throw err => (Throw err, state_of out, effects_of out)
    end.
Proof. unfold deliver. apply for_each_app. Qed.

(** The round of the readiness loop in which the child ends while the
    health request is awaited. *)
Lemma exit_round e maxAttempts intervalMs n i r proc c code signal outs :
  process (this r) = Some proc → children r !! proc = Some c →
  killed c = false → exitCode c = None → exitOnce c = [] →
  during_fetch (probes e i) = outs ++ [Exit code signal] →
  Forall is_output outs →
  health (probes e i) ≠ Plain_response true →
  Forall is_output (during_sleep (probes e i)) →
  ∃ r1 r3,
    diagnostics_only r r1 ∧
    diagnostics_only
      (state_of (onExit code signal (ended code signal proc r1))) r3 ∧
    waitForServer_from e maxAttempts intervalMs (S n) i r =
      let out := waitForServer_from e maxAttempts intervalMs n (S i) r3 in
      (completion_of out, state_of out,
       Fetch (health_request (this r))
       :: effects_of (onExit code signal (ended code signal proc r1))
       ++ effects_of out).
Proof.
  intros Hp Hc Hk Hx Ho Hev Houts Hh Hsl.
  destruct (deliver_output outs r Houts) as (H1 & H2 & H3).
  set (r1 := state_of (deliver outs r)) in *.
  pose proof (onExit_returns code signal (ended code signal proc r1)) as H4.
  set (ex := onExit code signal (ended code signal proc r1)) in *.
  destruct (deliver_output _ (state_of ex) Hsl) as (H5 & H6 & H7).
  set (r3 := state_of (deliver (during_sleep (probes e i)) (state_of ex))) in *.
  exists r1, r3. split_and!; [done..|].
  assert (process (this r1) = Some proc) as Hp1.
  { destruct H3 as (_ & _ & ->). by destruct r as [[] ? ?]. }
  assert (children r1 !! proc = Some c) as Hc1.
  { destruct H3 as (-> & _). done. }
  cbn [waitForServer_from].
  rewrite bind_unfold, process_state_probing by (by exists proc, c).
  cbn [fst snd]. run_M.
  unfold probe, health_request. run_M. rewrite Hev, deliver_app.
  unfold completion_of, state_of, effects_of in H1, H2, r1.
  destruct (deliver outs r) as [[c1 r1'] e1]. simpl in H1, H2, r1.
  subst c1 e1 r1. cbv zeta. cbn [completion_of state_of effects_of fst snd].
  rewrite (deliver_one proc) by done.
  rewrite (onProcessEvent_exit proc code signal r1' c) by done.
  fold ex. unfold completion_of in H4.
  unfold state_of in r3. unfold effects_of at 1.
  destruct ex as [[c2 r2] e2] eqn:Hex. simpl in H4. subst c2.
  cbn [fst snd app].
  unfold completion_of, state_of, effects_of in H5, H6, r3. cbn [fst snd] in *.
  destruct (health (probes e i)) as [err|[]]; [| done |]; run_M;
    destruct (deliver (during_sleep (probes e i)) r2) as [[c3 r3'] e3];
    simpl in H5, H6, r3; subst c3 e3 r3; cbn [fst snd app];
    unfold completion_of, state_of, effects_of;
    destruct (waitForServer_from e maxAttempts intervalMs n (S i) r3')
      as [[[[]|?] ?] ?]; cbn [fst snd app]; by rewrite ?app_nil_r.
Qed.

Lemma diagnostics_only_fields r r' :
  diagnostics_only r r' →
  process (this r') = process (this r) ∧ port (this r') = port (this r) ∧
  retryCount (this r') = retryCount (this r) ∧
  maxRetries (this r') = maxRetries (this r) ∧
  shouldRestart (this r') = shouldRestart (this r) ∧
  children r' = children r.
Proof.
  intros (Hc & _ & ->). destruct r as [[] ? ?]. by repeat split.
Qed.

(** What the ['exit'] listener leaves alone, and what it schedules. *)
Lemma onExit_frame code signal r :
  let out := onExit code signal r in
  process (bridge_of out) = process (this r) ∧
  port (bridge_of out) = port (this r) ∧
  children (state_of out) = children r ∧
  retryCount (bridge_of out)
    = (if shouldRestart (this r) && crashed code
       then retryCount (this r) + 1 else retryCount (this r)) ∧
  fetches (effects_of out) = [] ∧
  restarts (effects_of out)
    = (if shouldRestart (this r) && crashed code
          && bool_decide (retryCount (this r) + 1 ≤ maxRetries (this r))
       then [backoff (retryCount (this r) + 1)] else []).
Proof.
  destruct (shouldRestart (this r) && crashed code) eqn:Hc; cbv zeta.
  - apply andb_prop in Hc as [Hs Hc].
    destruct code as [c|]; [|done]. simpl in Hc.
    apply negb_true_iff, bool_decide_eq_false in Hc.
    rewrite onExit_crash by done.
    unfold bridge_of, state_of, effects_of. cbn [fst snd this children].
    split_and!; [done..| |].
    + rewrite fetches_app, fetches_interval_cleared.
      by case_bool_decide.
    + rewrite restarts_app, restarts_interval_cleared.
      by case_bool_decide.
  - rewrite onExit_quiet by done.
    unfold bridge_of, state_of, effects_of. cbn [fst snd this children].
    split_and!; [done..|apply fetches_interval_cleared
                |apply restarts_interval_cleared].
Qed.

Lemma waitForServer_gone e maxAttempts intervalMs n i r proc c code :
  process (this r) = Some proc → children r !! proc = Some c →
  exitCode c = Some code →
  waitForServer_from e maxAttempts intervalMs (S n) i r =
    (Throw (MkError (terminated_message (pretty code) (this r))), r, []).
Proof.
  intros Hp Hc Hx. cbn [waitForServer_from]. unfold process_state. run_M.
  rewrite Hp. simpl. rewrite Hc. simpl. rewrite Hx.
  rewrite bool_decide_eq_true_2 by done. rewrite orb_true_r. by run_M.
Qed.

(** X14. The worker dies while [start] waits for it: it runs through [k]
    probes, writing at most output, and exits with exit code [c] while
    health request number [k] is awaited, at least one probe before the
    last. Then [start] notices at the next turn of the loop: no further
    request is sent ([k + 1] in all, to the allocated port) and [start]
    throws the termination error that names the exit code, not the
    timeout error. The ['exit'] listener has run in between: for a
    crash ([c] nonzero) the failure counter is one higher and, while it
    does not exceed the cap, one restart is scheduled with the backoff
    delay; for exit code 0 nothing is counted or scheduled. *)
Theorem crash_during_startup e r p k outs c signal :
  starting (this r) = false → ready (this r) = false →
  availablePort e = inl p →
  existsSync e (pythonPath (pythonCommand e p)) = true →
  is_dev e = true
    ∨ MIN_EXE_SIZE ≤ statSync_size e (pythonPath (pythonCommand e p)) →
  (S k < 60)%nat →
  (∀ j, (j < k)%nat → quiet_round (probes e j)) →
  during_fetch (probes e k) = outs ++ [Exit (Some c) signal] →
  Forall is_output outs →
  health (probes e k) ≠ Plain_response true →
  Forall is_output (during_sleep (probes e k)) →
  let out := start e r in
  (∃ last, completion_of out = Throw (terminated_with c last)) ∧
  fetches (effects_of out)
    = replicate (S k) (health_request (set_port p (this r))) ∧
  retryCount (bridge_of out)
    = (if bool_decide (c = 0) then retryCount (this r)
       else retryCount (this r) + 1) ∧
  restarts (effects_of out)
    = (if bool_decide (c ≠ 0 ∧ retryCount (this r) + 1 ≤ maxRetries (this r))
       then [backoff (retryCount (this r) + 1)] else []).
Proof.
  intros Hs Hr Hp Hx Hsize Hk Hq Hev Houts Hh Hsl out. subst out.
  rewrite (start_launches e r p) by done.
  destruct (waitForServer_rounds e 60 500 k (S (S (58 - k))) 0 (launched p r))
    as (r' & Hr' & Hd' & Hw); [apply launched_probing|done|].
  replace (k + S (S (58 - k)))%nat with 60%nat in Hw by lia.
  destruct (diagnostics_only_fields _ _ Hd')
    as (Hp' & Hport' & Hrc' & Hmax' & Hsr' & Hcs').
  destruct (exit_round e 60 500 (S (58 - k)) k r' (length (children r))
              new_child (Some c) signal outs)
    as (r1 & r3 & Hd1 & Hd3 & Hround); [done| |done..|].
  { rewrite Hcs'. by apply list_lookup_middle. }
  destruct (diagnostics_only_fields _ _ Hd1)
    as (Hp1 & Hport1 & Hrc1 & Hmax1 & Hsr1 & Hcs1).
  destruct (diagnostics_only_fields _ _ Hd3)
    as (Hp3 & Hport3 & Hrc3 & Hmax3 & Hsr3 & Hcs3).
  destruct (onExit_frame (Some c) signal
              (ended (Some c) signal (length (children r)) r1))
    as (Hpx & Hportx & Hcsx & Hrcx & Hfx & Hrx).
  set (ex := onExit (Some c) signal
               (ended (Some c) signal (length (children r)) r1)) in *.
  unfold bridge_of in *. cbn [ended this children] in *.
  rewrite (waitForServer_gone e 60 500 (58 - k) (S k) r3
             (length (children r)) (exited (Some c) signal new_child) c)
    in Hround; first last.
  { done. }
  { rewrite Hcs3, Hcsx, Hcs1, Hcs'. simpl.
    rewrite list_lookup_alter, (list_lookup_middle _ _ _ (length (children r)));
      [|done]. by rewrite decide_True. }
  { by rewrite Hp3, Hpx, Hp1, Hp'. }
  cbv zeta in Hw, Hround.
  unfold completion_of, state_of, effects_of in Hw, Hround.
  cbn [fst snd] in Hw, Hround. rewrite Nat.add_0_l in Hw.
  rewrite Hround in Hw. cbn [fst snd] in Hw.
  unfold waitForServer. cbv zeta. rewrite Hw. clear Hw Hround.
  unfold completion_of, state_of, effects_of in *. cbn [fst snd].
  rewrite (diagnostics_only_url _ _ Hd'), launched_url.
  assert (shouldRestart (this r1) = true) as Hon
    by (by rewrite Hsr1, Hsr').
  assert (retryCount (this r1) = retryCount (this r)) as Hcount
    by (by rewrite Hrc1, Hrc').
  assert (maxRetries (this r1) = maxRetries (this r)) as Hcap
    by (by rewrite Hmax1, Hmax').
  rewrite Hon, Hcount, Hcap in *. simpl in Hrcx, Hrx.
  split_and!.
  - by eexists.
  - change (fetches (?a :: ?l)) with (fetches l).
    rewrite !fetches_app, fetches_replicate.
    change (fetches (Fetch ?q :: ?l)) with (q :: fetches l).
    rewrite fetches_app, Hfx. simpl. rewrite app_nil_r.
    symmetry. apply replicate_S_end.
  - simpl. rewrite Hrc3, Hrcx. by repeat case_bool_decide.
  - change (restarts (?a :: ?l)) with (restarts l).
    rewrite !restarts_app, restarts_replicate.
    change (restarts (Fetch ?q :: ?l)) with (restarts l).
    rewrite restarts_app, Hrx. simpl.
    repeat case_bool_decide; simpl; try done; tauto.
Qed.

Lemma crash_during_startup_witness :
  let e := packaged 20000000 (λ _, crashing 1) in
  starting (this fresh) = false ∧ ready (this fresh) = false ∧
  availablePort e = inl 51000 ∧
  existsSync e (pythonPath (pythonCommand e 51000)) = true ∧
  MIN_EXE_SIZE ≤ statSync_size e (pythonPath (pythonCommand e 51000)) ∧
  (1 < 60)%nat ∧
  (∀ j, (j < 0)%nat → quiet_round (probes e j)) ∧
  during_fetch (probes e 0) = [Stderr "boom"] ++ [Exit (Some 1) None] ∧
  Forall is_output [Stderr "boom"] ∧
  health (probes e 0) ≠ Plain_response true ∧
  Forall is_output (during_sleep (probes e 0)) ∧
  (∃ last, completion_of (start e fresh) = Throw (terminated_with 1 last)) ∧
  restarts (effects_of (start e fresh)) = [2000].
Proof.
  assert (MIN_EXE_SIZE ≤ 20000000) as Hsize by (unfold MIN_EXE_SIZE; lia).
  assert (∀ j, (j < 0)%nat →
            quiet_round (probes (packaged 20000000 (λ _, crashing 1)) j))
    as Hq by (intros j Hj; lia).
  assert (Forall is_output [Stderr "boom"]) as Houts
    by (by repeat constructor).
  pose proof (crash_during_startup (packaged 20000000 (λ _, crashing 1))
    fresh 51000 0 [Stderr "boom"] 1 None eq_refl eq_refl eq_refl eq_refl
    (or_intror Hsize) ltac:(lia) Hq eq_refl Houts ltac:(done)
    (Forall_nil_2 _)) as H.
  cbv zeta in *.
  split_and!; [reflexivity|reflexivity|reflexivity|reflexivity|exact Hsize|lia
              |exact Hq|reflexivity|exact Houts|done|constructor|apply H|].
  destruct H as (_ & _ & _ & ->). reflexivity.
Defined.

(** X15. A worker ended by a signal while [start] waits for it goes
    unnoticed: such a child has no exit code, and [waitForServer] looks at
    the exit code and at the [killed] flag of the supervisor's own
    signals only. With the health endpoint silent, [start] sends all 60
    health requests, to a worker that is gone from request [k] on, and
    throws the timeout error, not the termination error; the ['exit']
    listener schedules no restart, and the one status event is the
    failure status of the timeout. *)
Theorem signal_death_unnoticed e r p k outs signal :
  starting (this r) = false → ready (this r) = false →
  availablePort e = inl p →
  existsSync e (pythonPath (pythonCommand e p)) = true →
  is_dev e = true
    ∨ MIN_EXE_SIZE ≤ statSync_size e (pythonPath (pythonCommand e p)) →
  (k < 60)%nat →
  (∀ j, j ≠ k → quiet_round (probes e j)) →
  during_fetch (probes e k) = outs ++ [Exit None signal] →
  Forall is_output outs →
  health (probes e k) ≠ Plain_response true →
  Forall is_output (during_sleep (probes e k)) →
  let out := start e r in
  completion_of out = Throw (MkError (timeout_message 60 500)) ∧
  fetches (effects_of out)
    = replicate 60 (health_request (set_port p (this r))) ∧
  restarts (effects_of out) = [] ∧
  statuses (effects_of out)
    = [failure_status (MkError (timeout_message 60 500))].
Proof.
  intros Hs Hr Hp Hx Hsize Hk Hq Hev Houts Hh Hsl out. subst out.
  rewrite (start_launches e r p) by done.
  destruct (waitForServer_rounds e 60 500 k (S (59 - k)) 0 (launched p r))
    as (r' & Hr' & Hd' & Hw); [apply launched_probing| |].
  { intros j Hj. apply Hq. lia. }
  replace (k + S (59 - k))%nat with 60%nat in Hw by lia.
  destruct (diagnostics_only_fields _ _ Hd')
    as (Hp' & Hport' & Hrc' & Hmax' & Hsr' & Hcs').
  destruct (exit_round e 60 500 (59 - k) k r' (length (children r))
              new_child None signal outs)
    as (r1 & r3 & Hd1 & Hd3 & Hround); [done| |done..|].
  { rewrite Hcs'. by apply list_lookup_middle. }
  destruct (diagnostics_only_fields _ _ Hd1)
    as (Hp1 & Hport1 & Hrc1 & Hmax1 & Hsr1 & Hcs1).
  destruct (diagnostics_only_fields _ _ Hd3)
    as (Hp3 & Hport3 & Hrc3 & Hmax3 & Hsr3 & Hcs3).
  destruct (onExit_frame None signal
              (ended None signal (length (children r)) r1))
    as (Hpx & Hportx & Hcsx & Hrcx & Hfx & Hrx).
  pose proof (onExit_quiet (ended None signal (length (children r)) r1)
                None signal (andb_false_r _)) as Hquiet.
  set (ex := onExit None signal
               (ended None signal (length (children r)) r1)) in *.
  unfold bridge_of in *. cbn [ended this children] in *.
  rewrite andb_false_r in Hrx. simpl in Hrx.
  destruct (waitForServer_rounds e 60 500 (59 - k) 0 (S k) r3)
    as (r4 & Hr4 & Hd4 & Hrest).
  { exists (length (children r)), (exited None signal new_child).
    split_and!; [by rewrite Hp3, Hpx, Hp1, Hp'| |done|done].
    rewrite Hcs3, Hcsx, Hcs1, Hcs'. simpl.
    rewrite list_lookup_alter, (list_lookup_middle _ _ _ (length (children r)));
      [|done]. by rewrite decide_True. }
  { intros j Hj. apply Hq. lia. }
  rewrite Nat.add_0_r in Hrest. cbn [waitForServer_from] in Hrest.
  cbv zeta in Hw, Hround, Hrest.
  unfold completion_of, state_of, effects_of, throw in *.
  cbn [fst snd] in Hw, Hround, Hrest. rewrite Nat.add_0_l in Hw.
  rewrite Hrest in Hround. cbn [fst snd] in Hround.
  rewrite Hround in Hw. cbn [fst snd] in Hw.
  unfold waitForServer. cbv zeta. rewrite Hw. clear Hw Hround Hrest.
  cbn [fst snd].
  assert (health_request (this r3) = health_request (set_port p (this r)))
    as Hurl3.
  { rewrite <- launched_url. unfold health_request, base_url.
    by rewrite Hport3, Hportx, Hport1, Hport'. }
  rewrite (diagnostics_only_url _ _ Hd'), launched_url, Hurl3, app_nil_r.
  assert (statuses ex.2 = []) as Hsx.
  { rewrite Hquiet. apply statuses_interval_cleared. }
  split_and!.
  - done.
  - change (fetches (?a :: ?l)) with (fetches l).
    rewrite !fetches_app, fetches_replicate.
    change (fetches (Fetch ?q :: ?l)) with (q :: fetches l).
    rewrite !fetches_app, Hfx, fetches_replicate. cbn [app fetches omap].
    rewrite app_nil_r.
    replace (health_request (set_port p (this r))
             :: replicate (59 - k) (health_request (set_port p (this r))))
      with (replicate (S (59 - k)) (health_request (set_port p (this r))))
      by done.
    rewrite <- replicate_add. f_equal. lia.
  - change (restarts (?a :: ?l)) with (restarts l).
    rewrite !restarts_app, restarts_replicate.
    change (restarts (Fetch ?q :: ?l)) with (restarts l).
    by rewrite !restarts_app, Hrx, restarts_replicate.
  - change (statuses (?a :: ?l)) with (statuses l).
    unfold statuses in *. rewrite !omap_app.
    change (omap ?f (Fetch ?q :: ?l)) with (omap f l).
    rewrite !omap_app, Hsx.
    pose proof statuses_replicate as Hrep. unfold statuses in Hrep.
    by rewrite !Hrep.
Qed.

Lemma signal_death_unnoticed_witness :
  starting (this fresh) = false ∧ ready (this fresh) = false ∧
  availablePort oom_killed = inl 51000 ∧
  existsSync oom_killed (pythonPath (pythonCommand oom_killed 51000)) = true ∧
  MIN_EXE_SIZE
    ≤ statSync_size oom_killed (pythonPath (pythonCommand oom_killed 51000)) ∧
  (0 < 60)%nat ∧
  (∀ j, j ≠ 0%nat → quiet_round (probes oom_killed j)) ∧
  during_fetch (probes oom_killed 0) = [] ++ [Exit None (Some "SIGKILL")] ∧
  Forall is_output [] ∧
  health (probes oom_killed 0) ≠ Plain_response true ∧
  Forall is_output (during_sleep (probes oom_killed 0)) ∧
  completion_of (start oom_killed fresh)
    = Throw (MkError (timeout_message 60 500)) ∧
  restarts (effects_of (start oom_killed fresh)) = [].
Proof.
  assert (MIN_EXE_SIZE ≤ 20000000) as Hsize by (unfold MIN_EXE_SIZE; lia).
  assert (∀ j, j ≠ 0%nat → quiet_round (probes oom_killed j)) as Hq.
  { intros j Hj. simpl. rewrite bool_decide_eq_false_2 by done.
    split_and!; [constructor|constructor|done]. }
  pose proof (signal_death_unnoticed oom_killed fresh 51000 0 []
    (Some "SIGKILL") eq_refl eq_refl eq_refl eq_refl (or_intror Hsize)
    ltac:(lia) Hq eq_refl (Forall_nil_2 _) ltac:(done) (Forall_nil_2 _)) as H.
  cbv zeta in *.
  split_and!; [reflexivity|reflexivity|reflexivity|reflexivity|exact Hsize|lia
              |exact Hq|reflexivity|constructor|done|constructor
              |apply H|apply H].
Defined.

(** ** Who schedules restarts, who spawns *)

Lemma restarts_not_restart es : Forall not_restart es → restarts es = [].
Proof.
  induction 1 as [|e es He _ IH]; [done|].
  destruct e as [| |[]| | | | |]; simpl in *; done.
Qed.

Lemma spawns_not_spawn es : Forall not_spawn es → spawns es = [].
Proof.
  induction 1 as [|e es He _ IH]; [done|].
  destruct e; simpl in *; done.
Qed.


Ltac calm_leaf := try solve [exact I | done].

Lemma onExit_calm code signal :
  crashed code = false → preserves any_state not_restart (onExit code signal).
Proof.
  intros Hc r _. rewrite onExit_quiet by (by rewrite Hc, andb_false_r).
  split; [done|]. unfold effects_of, interval_cleared. simpl.
  destruct (pollInterval (this r)); by repeat constructor.
Qed.

Lemma onProcessEvent_calm proc ev :
  no_crash ev → preserves any_state not_restart (onProcessEvent proc ev).
Proof.
  destruct ev as [| | |code signal]; simpl; intros Hev;
    unfold onProcessEvent, onStdout, onStderr, onError, onExit_stop,
      push_output;
    preserves_auto; calm_leaf.
  apply onExit_calm. destruct code as [c|]; [|done].
  subst c. done.
Qed.

Lemma deliver_calm evs :
  Forall no_crash evs → preserves any_state not_restart (deliver evs).
Proof.
  intros Hevs. unfold deliver.
  induction Hevs as [|ev evs Hev _ IH]; cbn [for_each].
  - apply preserves_ret.
  - apply preserves_bind; [|intros _; apply IH].
    preserves_auto; calm_leaf. by apply onProcessEvent_calm.
Qed.

Lemma waitForServer_calm e maxAttempts intervalMs remaining i :
  calm e →
  preserves any_state not_restart
    (waitForServer_from e maxAttempts intervalMs remaining i).
Proof.
  intros Hcalm. revert i. induction remaining as [|n IH]; intros i; simpl.
  - preserves_auto.
  - unfold process_state, probe.
    preserves_auto; calm_leaf;
      first [apply deliver_calm; apply Hcalm | apply IH].
Qed.

(** X16. Restarts are scheduled by the ['exit'] listener on a crash and
    by nothing else: a start attempt during which the worker does not
    exit with a nonzero code schedules no restart, however the attempt
    ends (no port, no executable, a size below the floor, a spawn error,
    a worker ended by a signal or with code 0, a timeout, success). *)
Theorem start_schedules_no_restart e r :
  calm e → restarts (effects_of (start e r)) = [].
Proof.
  intros Hcalm. apply restarts_not_restart.
  assert (preserves any_state not_restart (start e)) as H; [|by apply H].
  unfold start, findAvailablePort, getPythonCommand, spawn, waitForServer.
  preserves_auto; calm_leaf. by apply waitForServer_calm.
Qed.

Lemma start_schedules_no_restart_witness :
  calm oom_killed ∧ restarts (effects_of (start oom_killed fresh)) = [].
Proof.
  assert (calm oom_killed) as Hcalm.
  { intros i. simpl. case_bool_decide; simpl; by repeat constructor. }
  split; [exact Hcalm|].
  exact (start_schedules_no_restart oom_killed fresh Hcalm).
Defined.

Ltac spawn_leaf := try solve [exact I | done].

Lemma waitForServer_no_spawn e maxAttempts intervalMs remaining i :
  preserves any_state not_spawn
    (waitForServer_from e maxAttempts intervalMs remaining i).
Proof.
  revert i. induction remaining as [|n IH]; intros i; simpl.
  - preserves_auto.
  - unfold process_state, probe, deliver, onProcessEvent, onStdout, onStderr,
      onError, onExit, onExit_stop, push_output, stopPolling.
    preserves_auto; spawn_leaf; apply IH.
Qed.

Lemma spawns_app es1 es2 : spawns (es1 ++ es2) = spawns es1 ++ spawns es2.
Proof. apply omap_app. Qed.

(** X17. One call of [start] spawns at most one worker, whatever the
    environment and the worker do. *)
Theorem start_spawns_at_most_once e r :
  (length (spawns (effects_of (start e r))) ≤ 1)%nat.
Proof.
  destruct r as [b cs n]. unfold effects_of.
  destruct (starting b || ready b) eqn:Hsr.
  { unfold start. run_M. rewrite Hsr. simpl. lia. }
  start_cases e; rewrite ?Hsr; start_cases e; simpl; try lia;
    match goal with
    | H : waitForServer e 60 500 ?r' = (_, _, ?l) |- _ =>
        destruct (waitForServer_no_spawn e 60 500 60 0 r' I) as [_ Hl];
        unfold waitForServer in H; rewrite H in Hl; simpl in Hl;
        apply spawns_not_spawn in Hl
    end;
    rewrite ?spawns_app, ?Hl; simpl; lia.
Qed.

(** ** After [stop] *)










(** ** The diagnostic buffer *)

Ltac bounded_leaf :=
  try solve [exact I | done
            | unfold buffer_bounded in *; simpl in *; first [done | lia]].

Lemma push_output_bounded line :
  preserves buffer_bounded any_effect (push_output line).
Proof.
  intros [b cs n] H. split; [|constructor].
  unfold buffer_bounded in *. simpl in *.
  case_bool_decide; simpl.
  - rewrite length_tl, length_app. simpl. lia.
  - rewrite length_app in *. simpl in *. lia.
Qed.

Lemma onProcessEvent_bounded proc ev :
  preserves buffer_bounded any_effect (onProcessEvent proc ev).
Proof.
  unfold onProcessEvent, onStdout, onStderr, onError, onExit, onExit_stop,
    stopPolling.
  destruct ev; preserves_auto; bounded_leaf; apply push_output_bounded.
Qed.

Lemma deliver_bounded evs : preserves buffer_bounded any_effect (deliver evs).
Proof.
  unfold deliver. preserves_auto; bounded_leaf. apply onProcessEvent_bounded.
Qed.

Lemma waitForServer_bounded e maxAttempts intervalMs remaining i :
  preserves buffer_bounded any_effect
    (waitForServer_from e maxAttempts intervalMs remaining i).
Proof.
  revert i. induction remaining as [|n IH]; intros i; simpl.
  - preserves_auto.
  - unfold process_state, probe.
    preserves_auto; bounded_leaf; try apply deliver_bounded; apply IH.
Qed.

Lemma request_bounded {T} endpoint options (answer : FetchAnswer T) :
  preserves buffer_bounded any_effect (request endpoint options answer).
Proof. unfold request. preserves_auto; bounded_leaf. Qed.

Lemma step_bounded i : preserves buffer_bounded any_effect (step i).
Proof.
  destruct i; simpl;
    unfold settle, start, findAvailablePort, getPythonCommand, spawn,
      waitForServer, stop, stop_resumed, stop_loop, stop_finish, stopPolling,
      forceKill, kill,
      getVideoInfo, startDownload, startPolling, cancelDownload,
      delete_active, pollTick, handle_progress, clearDownload,
      shutdownTimeout;
    preserves_auto; bounded_leaf;
    first [ apply request_bounded | apply waitForServer_bounded
          | apply onProcessEvent_bounded ].
Qed.

(** X19. The diagnostic buffer never holds more than 100 lines: in every
    state the supervisor reaches from its construction, whatever the
    calls, the events of its workers and the timers. *)
Theorem output_buffer_bounded inputs :
  (length (outputBuffer (bridge_of (run inputs fresh))) ≤ 100)%nat.
Proof.
  assert (preserves buffer_bounded any_effect (run inputs)) as H.
  { unfold run. apply preserves_for_each. intros i. apply step_bounded. }
  apply (H fresh). unfold buffer_bounded. simpl. lia.
Qed.

(** ** The poll timer *)

Lemma timer_run_app on es1 es2 :
  timer_run on (es1 ++ es2) = timer_run on es1 ≫= λ on', timer_run on' es2.
Proof.
  revert on. induction es1 as [|e es1 IH]; intros on; simpl; [done|].
  destruct (timer_step on e) as [on'|]; simpl; [apply IH|done].
Qed.

Lemma tracked_ret {A} (a : A) : timer_tracked (ret a).
Proof. by intros r. Qed.

Lemma tracked_mret {A} (a : A) : timer_tracked (mret a).
Proof. by intros r. Qed.

Lemma tracked_throw {A} e : timer_tracked (throw (A:=A) e).
Proof. by intros r. Qed.

Lemma tracked_get_this : timer_tracked get_this.
Proof. by intros r. Qed.

Lemma tracked_get_runtime : timer_tracked get_runtime.
Proof. by intros r. Qed.

Lemma tracked_bind {A B} (m : M A) (k : A → M B) :
  timer_tracked m → (∀ a, timer_tracked (k a)) → timer_tracked (m ≫= k).
Proof.
  intros Hm Hk r. rewrite bind_unfold. specialize (Hm r).
  unfold state_of, effects_of in *.
  destruct (m r) as [[[a|e] r1] e1]; simpl in *; [|done].
  specialize (Hk a r1). unfold state_of, effects_of in Hk.
  destruct (k a r1) as [[c r2] e2]. simpl in *.
  by rewrite timer_run_app, Hm.
Qed.

Lemma tracked_try_catch {A} (m : M A) (h : JsError → M A) :
  timer_tracked m → (∀ e, timer_tracked (h e)) → timer_tracked (try_catch m h).
Proof.
  intros Hm Hh r. unfold try_catch. specialize (Hm r).
  unfold state_of, effects_of in *.
  destruct (m r) as [[[a|e] r1] e1]; simpl in *; [done|].
  specialize (Hh e r1). unfold state_of, effects_of in Hh.
  destruct (h e r1) as [[c r2] e2]. simpl in *.
  by rewrite timer_run_app, Hm.
Qed.

Lemma tracked_for_each {A} (l : list A) (f : A → M unit) :
  (∀ x, timer_tracked (f x)) → timer_tracked (for_each l f).
Proof.
  intros Hf. induction l as [|x l IH]; simpl.
  - apply tracked_ret.
  - apply tracked_bind; [apply Hf|intros _; apply IH].
Qed.

Lemma tracked_update f :
  (∀ b, pollInterval (f b) = pollInterval b) → timer_tracked (update f).
Proof. intros Hf [b cs n]. unfold has_timer. simpl. by rewrite Hf. Qed.

Lemma tracked_update_children f : timer_tracked (update_children f).
Proof. by intros r. Qed.

Lemma tracked_new_promise : timer_tracked new_promise.
Proof. by intros r. Qed.

Lemma tracked_perform e : no_interval e → timer_tracked (perform e).
Proof. intros He r. simpl. by destruct e. Qed.

Lemma tracked_stopPolling : timer_tracked stopPolling.
Proof.
  intros [b cs n]. destruct b as [? ? ? ? ? ? ? ? ? timer ?].
  unfold stopPolling, has_timer. run_M. simpl. by destruct timer.
Qed.

Lemma tracked_startPolling : timer_tracked startPolling.
Proof.
  intros [b cs n]. destruct b as [? ? ? ? ? ? ? ? ? timer ?].
  unfold startPolling, has_timer. run_M. simpl. by destruct timer.
Qed.

Ltac tracked_step :=
  lazymatch goal with
  | |- timer_tracked stopPolling => apply tracked_stopPolling
  | |- timer_tracked startPolling => apply tracked_startPolling
  | |- timer_tracked (mbind _ _) => apply tracked_bind; [|intros ?]
  | |- timer_tracked (try_catch _ _) => apply tracked_try_catch; [|intros ?]
  | |- timer_tracked (for_each _ _) => apply tracked_for_each; intros ?
  | |- timer_tracked (ret _) => apply tracked_ret
  | |- timer_tracked (mret _) => apply tracked_mret
  | |- timer_tracked (throw _) => apply tracked_throw
  | |- timer_tracked get_this => apply tracked_get_this
  | |- timer_tracked get_runtime => apply tracked_get_runtime
  | |- timer_tracked (emit _) => apply tracked_perform; exact I
  | |- timer_tracked (perform _) => apply tracked_perform; exact I
  | |- timer_tracked (update _) =>
      apply tracked_update; intros []; reflexivity
  | |- timer_tracked (update_children _) => apply tracked_update_children
  | |- timer_tracked new_promise => apply tracked_new_promise
  | |- timer_tracked (if ?c then _ else _) => destruct c
  | |- timer_tracked (match ?x with _ => _ end) => destruct x
  | |- timer_tracked (let '(_, _) := ?x in _) => destruct x
  end.

Ltac tracked_auto := repeat tracked_step.

Lemma tracked_onProcessEvent proc ev : timer_tracked (onProcessEvent proc ev).
Proof.
  unfold onProcessEvent, onStdout, onStderr, onError, onExit, onExit_stop,
    push_output.
  destruct ev; tracked_auto.
Qed.

Lemma tracked_waitForServer e maxAttempts intervalMs remaining i :
  timer_tracked (waitForServer_from e maxAttempts intervalMs remaining i).
Proof.
  revert i. induction remaining as [|n IH]; intros i; simpl.
  - tracked_auto.
  - unfold process_state, probe, deliver.
    tracked_auto; first [apply tracked_onProcessEvent | apply IH].
Qed.

Lemma tracked_step_input i : timer_tracked (step i).
Proof.
  destruct i; simpl;
    unfold settle, start, findAvailablePort, getPythonCommand, spawn,
      waitForServer, stop, stop_resumed, stop_loop, stop_finish, forceKill,
      kill,
      getVideoInfo, startDownload, cancelDownload, request,
      pollTick, handle_progress, delete_active, clearDownload,
      shutdownTimeout;
    tracked_auto;
    first [apply tracked_waitForServer | apply tracked_onProcessEvent].
Qed.

(** X20. There is never more than one poll timer. Along every run of
    the supervisor from its construction, [setInterval] is called only
    while no interval is live and [clearInterval] only on a live one, so
    the two alternate, starting with [setInterval]; and
    [this.pollInterval] is set at the end exactly when an interval is
    live. *)
Theorem poll_timer_alternates inputs :
  timer_run false (effects_of (run inputs fresh))
    = Some (has_timer (state_of (run inputs fresh))).
Proof.
  assert (timer_tracked (run inputs)) as H.
  { unfold run. apply tracked_for_each. intros i. apply tracked_step_input. }
  apply (H fresh).
Qed.

(** ** Tracked jobs across a restart *)

Ltac unpolled_leaf :=
  try solve [exact I | done | unfold unpolled in *; simpl in *; done].

Lemma stopPolling_unpolled ids : preserves (unpolled ids) no_interval stopPolling.
Proof.
  intros r [H1 H2]. unfold stopPolling, state_of, effects_of. run_M.
  rewrite H2. by repeat split.
Qed.

Lemma onProcessEvent_unpolled ids proc ev :
  preserves (unpolled ids) no_interval (onProcessEvent proc ev).
Proof.
  unfold onProcessEvent, onStdout, onStderr, onError, onExit, onExit_stop,
    push_output.
  destruct ev; preserves_auto; unpolled_leaf; apply stopPolling_unpolled.
Qed.

Lemma waitForServer_unpolled ids e maxAttempts intervalMs remaining i :
  preserves (unpolled ids) no_interval
    (waitForServer_from e maxAttempts intervalMs remaining i).
Proof.
  revert i. induction remaining as [|n IH]; intros i; simpl.
  - preserves_auto.
  - unfold process_state, probe, deliver.
    preserves_auto; unpolled_leaf;
      first [apply onProcessEvent_unpolled | apply IH].
Qed.

Lemma start_unpolled ids e : preserves (unpolled ids) no_interval (start e).
Proof.
  unfold start, findAvailablePort, getPythonCommand, spawn, waitForServer.
  preserves_auto; unpolled_leaf; apply waitForServer_unpolled.
Qed.

Lemma onExit_unpolls code signal r :
  unpolled (activeDownloads (this r)) (state_of (onExit code signal r)).
Proof.
  destruct (shouldRestart (this r) && crashed code) eqn:Hc.
  - apply andb_prop in Hc as [Hs Hc].
    destruct code as [c|]; [|done]. simpl in Hc.
    apply negb_true_iff, bool_decide_eq_false in Hc.
    by rewrite onExit_crash.
  - by rewrite onExit_quiet.
Qed.

Lemma onExit_stop_unpolled ids promise :
  preserves (unpolled ids) no_interval (onExit_stop promise).
Proof. unfold onExit_stop. preserves_auto; unpolled_leaf. Qed.

(** X21. Jobs tracked when the worker exits are still tracked after the
    restart, but nothing polls for them: the ['exit'] listener stops the
    poll loop and leaves the set of tracked jobs as it is, and a later
    [start], also one that ends ready, neither clears the set nor sets
    the poll timer again. *)
Theorem tracked_jobs_unpolled_after_restart r proc code signal e :
  let down := state_of (onProcessEvent proc (Exit code signal) r) in
  let out := start e down in
  activeDownloads (this down) = activeDownloads (this r) ∧
  pollInterval (this down) = None ∧
  activeDownloads (bridge_of out) = activeDownloads (this r) ∧
  pollInterval (bridge_of out) = None ∧
  Forall no_interval (effects_of out).
Proof.
  intros down out.
  assert (unpolled (activeDownloads (this r)) down) as Hdown.
  { subst down. destruct r as [b cs n].
    unfold onProcessEvent, state_of. run_M.
    match goal with |- context [onExit code signal ?r0] =>
      pose proof (onExit_unpolls code signal r0) as H;
      pose proof (onExit_returns code signal r0) as Hret;
      unfold state_of, completion_of in H, Hret;
      destruct (onExit code signal r0) as [[c1 r1] e1]
    end.
    simpl in H, Hret. subst c1. run_M.
    match goal with |- context [for_each ?l onExit_stop r1] =>
      destruct (preserves_for_each (unpolled b.(activeDownloads)) no_interval
                  l onExit_stop (onExit_stop_unpolled _) r1 H) as [H' _];
      unfold state_of in H';
      by destruct (for_each l onExit_stop r1) as [[c2 r2] e2]
    end. }
  destruct (start_unpolled _ e down Hdown) as [[H1 H2] H3].
  destruct Hdown. by split_and!.
Qed.

(** ** What the poll callback touches *)

Lemma only_untracked_refl r : only_untracked r r.
Proof. destruct r as [[] ? ?]. by repeat split. Qed.

Lemma only_untracked_delete r0 d b cs n :
  only_untracked r0 {| this := b; children := cs; promises := n |} →
  only_untracked r0 {|
    this := set_activeDownloads (JsSet.delete d (activeDownloads b)) b;
    children := cs; promises := n |}.
Proof.
  intros (H1 & H2 & H3 & H4). simpl in *.
  split_and!; simpl; [done|done| |].
  - rewrite H3. by destruct (this r0).
  - intros x [_ Hx]%elem_of_delete. by apply H4.
Qed.

Ltac untracked_leaf :=
  try solve [exact I | done | by apply only_untracked_delete].

(** X22. The poll callback touches nothing but the set of tracked jobs,
    and that only by removing jobs. It sets and clears no interval, so
    it never stops its own timer, also when the last tracked job has
    ended. *)
Theorem pollTick_only_untracks answer cleared r :
  let out := pollTick answer cleared r in
  only_untracked r (state_of out) ∧
  pollInterval (bridge_of out) = pollInterval (this r) ∧
  Forall no_interval (effects_of out).
Proof.
  intros out.
  assert (preserves (only_untracked r) no_interval (pollTick answer cleared))
    as H.
  { unfold pollTick, handle_progress, delete_active, clearDownload.
    preserves_auto; untracked_leaf. }
  destruct (H r (only_untracked_refl r)) as [H1 H2]. fold out in H1, H2.
  split_and!; [done| |done].
  destruct H1 as (_ & _ & H3 & _). unfold bridge_of. rewrite H3.
  by destruct (this r).
Qed.
